(** * NORD chat gateway: rate limiter, metrics window and streaming handlers

    A shallow embedding of the Python package [backend/app]:
    - [rate_limiter.py]  -> [Module RateLimiter]
    - [metrics.py]       -> [Module Metrics]
    - [config.py]        -> [Settings]
    - [schemas.py]       -> [Module Schemas]
    - [deps.py]          -> [Module Deps]
    - [main.py]          -> [Module Main]

    Conventions of the embedding.
    - Python [float] values are read as exact rationals ([Q]); equalities
      between computed floats are stated with [==].  Integers are [Z].
    - A Python function that may raise returns a [result]; the exceptions
      that occur in the package are the constructors of [exn].
    - Clock readings ([time.monotonic], [time.perf_counter]) are explicit
      arguments of the functions that read the clock.
    - The limiter and the collector are explicit states.  The handlers of
      [main.py] run in the state-and-exception monad [M] over a [World]
      that holds the cached limiter, the collector, the WebSocket of the
      connection and the trace of the actions performed so far (calls of
      the limiter, calls of the backend, events put on the wire).
    - What the backend and the client do is an input: the chunks a
      streaming call yields, the reply of a blocking call, the messages a
      WebSocket client sends.
    - JSON payloads are [value]s; a chunk is a [dict].  The framework's
      part is modelled where a handler depends on it: the order in which a
      route's dependencies, the validation of the body and the endpoint
      run, and the mapping of exceptions to responses. *)

From Stdlib Require Import ZArith QArith Qround Qminmax Lia Lqa.
From Stdlib Require Import Sorting.Sorted Sorting.Permutation.
From Corelib Require Import PrimFloat.
From stdpp Require Import gmap strings.

(** ** Python preliminaries *)

Inductive exn : Type :=
| ValueError (msg : string)
| TypeError (msg : string)
| IndexError
| ValidationError (msg : string)
| HTTPException (status_code : Z) (detail : string)
| WebSocketException (code : Z) (reason : string)
| WebSocketDisconnect
| OllamaServiceError (message : string) (status_code : Z).

Inductive result (A : Type) : Type :=
| Ok (a : A)
| Raise (e : exn).
Arguments Ok {A} a.
Arguments Raise {A} e.

Definition bind {A B : Type} (r : result A) (k : A -> result B) : result B :=
  match r with
  | Ok a => k a
  | Raise e => Raise e
  end.

Notation "'let*' x ':=' r 'in' k" := (bind r (fun x => k))
  (at level 10, x pattern, r at level 100, k at level 200).

(** [x < y] on floats. *)
Definition Qltb (x y : Q) : bool := negb (Qle_bool y x).

(** The builtin [min(a, b)]: the first argument unless the second is
    strictly smaller. *)
Definition py_min (a b : Q) : Q := if Qltb b a then b else a.

(** The builtin [max(a, b)]: the first argument unless the second is
    strictly greater. *)
Definition py_max (a b : Q) : Q := if Qltb a b then b else a.

(** ** rate_limiter.py *)

Module RateLimiter.

(** One entry of [self._buckets]: the dict [{"tokens": .., "timestamp": ..}]. *)
Record Bucket : Type := { tokens : Q; timestamp : Q }.

Record t : Type := {
  rate : Q;
  capacity : Q;
  _buckets : gmap string Bucket
}.

Definition __init__ (rate : Q) (burst : Z) : result t :=
  if Qle_bool rate 0 then Raise (ValueError "rate must be > 0")
  else if (burst <=? 0)%Z then Raise (ValueError "burst must be > 0")
  else Ok {| rate := rate; capacity := inject_Z burst; _buckets := ∅ |}.

(** [bucket[..] = ..] on the dict stored under [client_id]: the bucket is
    shared with [self._buckets], so the store sees the update. *)
Definition store (self : t) (client_id : string) (b : Bucket) : t :=
  {| rate := rate self; capacity := capacity self;
     _buckets := <[client_id := b]> (_buckets self) |}.

(** [allow(client_id)], with [now] the value read from [time.monotonic()]. *)
Definition allow (self : t) (client_id : string) (now : Q) : bool * t :=
  let bucket :=
    match _buckets self !! client_id with
    | Some b => b
    | None => {| tokens := capacity self; timestamp := now |}
    end in
  let elapsed := py_max 0 (now - timestamp bucket) in
  let refilled := py_min (capacity self) (tokens bucket + elapsed * rate self) in
  if Qltb refilled 1 then
    (false, store self client_id {| tokens := refilled; timestamp := now |})
  else
    (true, store self client_id {| tokens := refilled - 1; timestamp := now |}).

(** The bucket a call works on: the stored one, or the one created on the
    spot for an identity that has none. *)
Definition bucket_of (self : t) (client_id : string) (now : Q) : Bucket :=
  match _buckets self !! client_id with
  | Some b => b
  | None => {| tokens := capacity self; timestamp := now |}
  end.

(** The refill rule in the words of the specification:
    [min(capacity, tokens + elapsed * rate)]. *)
Definition refill_spec (self : t) (b : Bucket) (now : Q) : Q :=
  Qmin (capacity self) (tokens b + Qmax 0 (now - timestamp b) * rate self).

(** A history of calls [(client_id, now)] in the order in which they take
    the lock; the answers are returned in the same order. *)
Fixpoint run (self : t) (calls : list (string * Q)) : list bool * t :=
  match calls with
  | [] => ([], self)
  | (client_id, now) :: rest =>
      let '(r, self') := allow self client_id now in
      let '(rs, self'') := run self' rest in
      (r :: rs, self'')
  end.

(** The answers given to one identity during a history. *)
Fixpoint answers_for (who : string) (self : t) (calls : list (string * Q)) : list bool :=
  match calls with
  | [] => []
  | (client_id, now) :: rest =>
      let '(r, self') := allow self client_id now in
      if decide (client_id = who) then r :: answers_for who self' rest
      else answers_for who self' rest
  end.

(** [n] calls of one identity at the same clock reading. *)
Definition burst_of (client_id : string) (now : Q) (n : nat) : list (string * Q) :=
  replicate n (client_id, now).

(** Number of admitted calls in a list of answers. *)
Definition admitted (answers : list bool) : nat :=
  length (filter (fun b => b = true) answers).

(** The data-model invariant of a bucket: [0 <= tokens <= capacity]. *)
Definition in_range (self : t) : Prop :=
  forall (client_id : string) (b : Bucket),
    _buckets self !! client_id = Some b ->
    (0 <= tokens b)%Q /\ (tokens b <= capacity self)%Q.

(** The scenario of the admission-fairness property: seven calls of one
    identity at clock reading [t0], then [n] calls at [t0 + d]. *)
Definition fairness_history (client_id : string) (t0 d : Q) (n : nat) : list (string * Q) :=
  burst_of client_id t0 7 ++ burst_of client_id (t0 + d) n.

End RateLimiter.

(** ** metrics.py *)

Module Metrics.

(** [l[i]] on a Python list: a negative index counts from the end, an
    index out of range raises [IndexError]. *)
Definition py_getitem {A : Type} (l : list A) (i : Z) : result A :=
  let n := Z.of_nat (length l) in
  let j := if (i <? 0)%Z then (i + n)%Z else i in
  if (j <? 0)%Z then Raise IndexError
  else match l !! Z.to_nat j with
       | Some x => Ok x
       | None => Raise IndexError
       end.

(** [int(x)] on a float: truncation towards zero. *)
Definition py_int_of_float (x : Q) : Z :=
  if Qltb x 0 then Qceiling x else Qfloor x.

(** The builtin [sorted]: the stable ascending sort, comparing with [<]. *)
Fixpoint insert_stable (x : Q) (l : list Q) : list Q :=
  match l with
  | [] => [x]
  | y :: rest => if Qltb y x then y :: insert_stable x rest else x :: y :: rest
  end.

Fixpoint sorted (l : list Q) : list Q :=
  match l with
  | [] => []
  | x :: rest => insert_stable x (sorted rest)
  end.

Definition _percentile (values : list Q) (percentile : Q) : result Q :=
  match values with
  | [] => Ok 0%Q
  | _ :: _ =>
      let ordered := sorted values in
      let k := (inject_Z (Z.of_nat (length ordered) - 1) * percentile)%Q in
      let f := Qfloor k in
      let c := Qceiling k in
      if (f =? c)%Z then py_getitem ordered (py_int_of_float k)
      else
        let* lo := py_getitem ordered f in
        let* hi := py_getitem ordered c in
        Ok (lo * (inject_Z c - k) + hi * (k - inject_Z f))%Q
  end.

(** The collector: [maxlen] is the [maxlen] of the deque [_latencies]. *)
Record t : Type := {
  maxlen : nat;
  _latencies : list Q;
  _requests_total : Z;
  _prompt_tokens : Z;
  _completion_tokens : Z
}.

Definition __init__ (window_size : nat) : t :=
  {| maxlen := window_size; _latencies := []; _requests_total := 0;
     _prompt_tokens := 0; _completion_tokens := 0 |}.

(** The module-level instance [metrics = MetricsCollector()]. *)
Definition metrics : t := __init__ 512.

(** [deque.append] on a bounded deque: the newest item enters on the right
    and the deque keeps its last [maxlen] items. *)
Definition deque_append (maxlen : nat) (d : list Q) (x : Q) : list Q :=
  drop (length (d ++ [x]) - maxlen) (d ++ [x]).

Definition record (self : t) (latency_ms : Q) (prompt_tokens completion_tokens : Z) : t :=
  {| maxlen := maxlen self;
     _latencies := deque_append (maxlen self) (_latencies self) (py_max 0 latency_ms);
     _requests_total := _requests_total self + 1;
     _prompt_tokens := _prompt_tokens self + Z.max 0 prompt_tokens;
     _completion_tokens := _completion_tokens self + Z.max 0 completion_tokens |}.

(** The dict returned by [snapshot]. *)
Record Snapshot : Type := {
  requests_total : Z;
  tokens_prompt_total : Z;
  tokens_completion_total : Z;
  latency_ms_p50 : Q;
  latency_ms_p95 : Q
}.

Definition snapshot (self : t) : result Snapshot :=
  let latencies := _latencies self in
  let requests := _requests_total self in
  let prompt := _prompt_tokens self in
  let completion := _completion_tokens self in
  let* p50 := _percentile latencies 0.5 in
  let* p95 := _percentile latencies 0.95 in
  Ok {| requests_total := requests;
        tokens_prompt_total := prompt;
        tokens_completion_total := completion;
        latency_ms_p50 := p50;
        latency_ms_p95 := p95 |}.

(** The percentile in the words of the specification: sort the window, let
    [k = (n-1) * p], [f = floor k], [c = ceil k]; the value at [k] when
    [f = c], else [values[f]*(c-k) + values[c]*(k-f)]; [0.0] for an empty
    window.  Positions are read with a default, so that the definition is
    total. *)
Definition percentile_spec (window : list Q) (p : Q) : Q :=
  match window with
  | [] => 0%Q
  | _ :: _ =>
      let values := sorted window in
      let n := Z.of_nat (length values) in
      let k := (inject_Z (n - 1) * p)%Q in
      let f := Qfloor k in
      let c := Qceiling k in
      if (f =? c)%Z then nth (Z.to_nat f) values 0%Q
      else (nth (Z.to_nat f) values 0 * (inject_Z c - k)
            + nth (Z.to_nat c) values 0 * (k - inject_Z f))%Q
  end.

(** A window filled by recording the given latencies in order. *)
Definition record_all (self : t) (latencies : list Q) : t :=
  foldl (fun m l => record m l 0 0) self latencies.

End Metrics.

(** ** JSON values as the Python objects [json.loads] builds *)

#[warnings="-register-all"]
Inductive value : Type :=
| VNone
| VBool (b : bool)
| VInt (n : Z)
| VFloat (x : Q)
| VStr (s : string)
| VList (items : list value)
| VDict (items : list (string * value)).

(** A JSON object: the key/value pairs of a [dict]; a key is looked up at
    its first pair. *)
Abbreviation dict := (list (string * value)).

(** Truth value of an object, as tested by [if x:] and [x or y]. *)
Definition truthy (v : value) : bool :=
  match v with
  | VNone => false
  | VBool b => b
  | VInt n => negb (n =? 0)%Z
  | VFloat x => negb (Qeq_bool x 0)
  | VStr s => negb (String.eqb s "")
  | VList items => match items with [] => false | _ :: _ => true end
  | VDict items => match items with [] => false | _ :: _ => true end
  end.

(** [key in d]. *)
Fixpoint contains (d : dict) (key : string) : bool :=
  match d with
  | [] => false
  | (k, _) :: rest => if String.eqb k key then true else contains rest key
  end.

(** [d.get(key)]: [None] when the key is absent. *)
Fixpoint get (d : dict) (key : string) : value :=
  match d with
  | [] => VNone
  | (k, v) :: rest => if String.eqb k key then v else get rest key
  end.

(** [x or y]. *)
Definition py_or (x y : value) : value := if truthy x then x else y.

(** The builtins [str] and [int] on the operands the package gives them.
    [str] of a string is that string and [int] of an integer, a boolean or
    a float is fixed by the language; the textual form of other objects,
    the parsing of numerals and the wording of the [TypeError] that [int]
    raises on an object that is neither a number nor a string are left to
    the interpreter. *)
Class Builtins : Type := {
  repr : value -> string;
  int_of_str : string -> option Z;
  int_type_error : value -> string
}.

Definition py_str `{Builtins} (v : value) : string :=
  match v with
  | VStr s => s
  | _ => repr v
  end.

Definition py_int `{Builtins} (v : value) : result Z :=
  match v with
  | VInt n => Ok n
  | VBool b => Ok (if b then 1 else 0)%Z
  | VFloat x => Ok (if Qltb x 0 then Qceiling x else Qfloor x)
  | VStr s =>
      match int_of_str s with
      | Some n => Ok n
      | None => Raise (ValueError ("invalid literal for int() with base 10: " ++ repr (VStr s)))
      end
  | VNone | VList _ | VDict _ => Raise (TypeError (int_type_error v))
  end.

(** ** config.py: the settings the handlers read *)

Record Settings : Type := {
  default_model : string;
  api_key : string;
  api_key_optional : bool;
  rate_limit_rps : Q;
  rate_limit_burst : Z
}.

(** The defaults of the [Settings] class. *)
Definition default_settings : Settings :=
  {| default_model := "llama3"; api_key := ""; api_key_optional := true;
     rate_limit_rps := 3; rate_limit_burst := 6 |}.

(** ** schemas.py *)

Module Schemas.

Inductive Role : Type := system | user | assistant.

Record ChatMessage : Type := { role : Role; content : string }.

(** A chat request before validation: the fields as they arrive, typed. *)
Record RawMessage : Type := { raw_role : string; raw_content : string }.

Record RawChatRequest : Type := {
  raw_model : option string;
  raw_messages : list RawMessage;
  raw_stream : bool;
  raw_temperature : option Q;
  raw_top_p : option Q;
  raw_seed : option Z
}.

Record ChatRequest : Type := {
  model : option string;
  messages : list ChatMessage;
  stream : bool;
  temperature : option Q;
  top_p : option Q;
  seed : option Z
}.

(** [role: Literal["system", "user", "assistant"]]. *)
Definition validate_role (s : string) : result Role :=
  if String.eqb s "system" then Ok system
  else if String.eqb s "user" then Ok user
  else if String.eqb s "assistant" then Ok assistant
  else Raise (ValidationError "role must be system, user or assistant").

Fixpoint validate_message_list (l : list RawMessage) : result (list ChatMessage) :=
  match l with
  | [] => Ok []
  | m :: rest =>
      let* r := validate_role (raw_role m) in
      let* ms := validate_message_list rest in
      Ok ({| role := r; content := raw_content m |} :: ms)
  end.

(** The field validator of [messages]. *)
Definition validate_messages (value : list ChatMessage) : result (list ChatMessage) :=
  match value with
  | [] => Raise (ValueError "messages must contain at least one item")
  | _ :: _ => Ok value
  end.

(** [Field(ge=lo, le=hi)] on an optional float. *)
Definition in_bounds (lo hi : Q) (x : option Q) : bool :=
  match x with
  | None => true
  | Some q => Qle_bool lo q && Qle_bool q hi
  end.

(** Construction of a [ChatRequest] from its fields: every violated constraint makes the
    construction raise a [ValidationError]. *)
Definition validate (raw : RawChatRequest) : result ChatRequest :=
  let* ms := validate_message_list (raw_messages raw) in
  let* ms := match validate_messages ms with
             | Ok v => Ok v
             | Raise (ValueError msg) => Raise (ValidationError msg)
             | Raise e => Raise e
             end in
  if negb (in_bounds 0 2 (raw_temperature raw)) then
    Raise (ValidationError "temperature out of range")
  else if negb (in_bounds 0 1 (raw_top_p raw)) then
    Raise (ValidationError "top_p out of range")
  else if match raw_seed raw with Some s => (s <? 0)%Z | None => false end then
    Raise (ValidationError "seed must be >= 0")
  else
    Ok {| model := raw_model raw; messages := ms; stream := raw_stream raw;
          temperature := raw_temperature raw; top_p := raw_top_p raw;
          seed := raw_seed raw |}.

Record UsageStats : Type := {
  prompt_tokens : Z;
  completion_tokens : Z;
  total_tokens : Z
}.

(** [UsageStats()] and [UsageStats(prompt_tokens=.., completion_tokens=..)]. *)
Definition UsageStats_new (prompt completion : Z) : UsageStats :=
  {| prompt_tokens := prompt; completion_tokens := completion; total_tokens := 0 |}.

Definition set_total_tokens (u : UsageStats) (total : Z) : UsageStats :=
  {| prompt_tokens := prompt_tokens u; completion_tokens := completion_tokens u;
     total_tokens := total |}.

Record ChatResponse : Type := {
  id : value;
  response_model : value;
  response_content : string;
  usage : UsageStats;
  latency_ms : Z
}.

End Schemas.

(** ** The process state and the effects of a handler *)

(** Generation parameters kept by [_build_options]: the entries of
    [temperature], [top_p] and [seed] that are not [None]. *)
Record Options : Type := {
  opt_temperature : option Q;
  opt_top_p : option Q;
  opt_seed : option Z
}.

(** The payloads a handler emits: the dicts with ["type"] equal to
    ["token"], ["done"] and ["error"]. *)
Inductive ChatEvent : Type :=
| Token (token : string)
| Done (content : string) (usage : Schemas.UsageStats) (latency_ms : Z)
| Error (message : string) (details : option string).

Definition is_terminal (e : ChatEvent) : bool :=
  match e with
  | Token _ => false
  | Done _ _ _ | Error _ _ => true
  end.

(** What a handler does that can be observed from outside, in order. *)
Inductive action : Type :=
| Allow (client_id : string) (answer : bool)
| StreamChat (model : string) (messages : list Schemas.ChatMessage) (options : Options)
| Chat (model : string) (messages : list Schemas.ChatMessage) (options : Options)
| Yield (e : ChatEvent)
| Send (e : ChatEvent)
| Accept.

Inductive WebSocketState : Type := CONNECTING | CONNECTED | DISCONNECTED.

(** A WebSocket as the handlers see it.  [peer_accepts] says how many more
    frames the peer takes before it is gone ([None]: it stays). *)
Record WebSocket : Type := {
  application_state : WebSocketState;
  peer_accepts : option nat
}.

(** The process-wide objects: the cached limiter of [get_rate_limiter]
    ([None] until its first use), the collector [metrics], the socket of
    the connection at hand, and the actions performed so far. *)
Record World : Type := {
  limiter : option RateLimiter.t;
  metrics : Metrics.t;
  websocket : WebSocket;
  trace : list action
}.

Definition M (A : Type) : Type := World -> result A * World.

Definition ret {A : Type} (a : A) : M A := fun w => (Ok a, w).

Definition raise {A : Type} (e : exn) : M A := fun w => (Raise e, w).

Definition lift {A : Type} (r : result A) : M A := fun w => (r, w).

Definition bindM {A B : Type} (m : M A) (k : A -> M B) : M B :=
  fun w => match m w with
           | (Ok a, w') => k a w'
           | (Raise e, w') => (Raise e, w')
           end.

Notation "'let!' x ':=' m 'in' k" := (bindM m (fun x => k))
  (at level 10, x pattern, m at level 100, k at level 200).

(** [try: m  except e: h e]. *)
Definition try_except {A : Type} (m : M A) (h : exn -> M A) : M A :=
  fun w => match m w with
           | (Ok a, w') => (Ok a, w')
           | (Raise e, w') => h e w'
           end.

Definition add_trace (w : World) (actions : list action) : World :=
  {| limiter := limiter w; metrics := metrics w;
     websocket := websocket w; trace := trace w ++ actions |}.

Definition set_metrics (w : World) (m : Metrics.t) : World :=
  {| limiter := limiter w; metrics := m; websocket := websocket w; trace := trace w |}.

Definition emit (a : action) : M unit :=
  fun w => (Ok tt, add_trace w [a]).

(** [metrics.record(latency_ms, prompt_tokens, completion_tokens)]. *)
Definition record_sample (latency_ms prompt_tokens completion_tokens : Z) : M unit :=
  fun w => (Ok tt, set_metrics w (Metrics.record (metrics w) (inject_Z latency_ms)
                                    prompt_tokens completion_tokens)).

Definition set_websocket (w : World) (ws : WebSocket) : World :=
  {| limiter := limiter w; metrics := metrics w; websocket := ws; trace := trace w |}.

(** [await websocket.accept()]. *)
Definition accept : M unit :=
  fun w => emit Accept
             (set_websocket w {| application_state := CONNECTED;
                                 peer_accepts := peer_accepts (websocket w) |}).

(** [await websocket.send_json(payload)]: the frame goes out, or the peer
    is gone and the call raises [WebSocketDisconnect]. *)
Definition send_json (payload : ChatEvent) : M unit :=
  fun w =>
    match peer_accepts (websocket w) with
    | Some O =>
        (Raise WebSocketDisconnect,
         set_websocket w {| application_state := DISCONNECTED; peer_accepts := Some O |})
    | Some (S n) =>
        emit (Send payload)
          (set_websocket w {| application_state := application_state (websocket w);
                              peer_accepts := Some n |})
    | None => emit (Send payload) w
    end.

(** The events among the actions of a trace: SSE blocks and WebSocket
    frames. *)
Fixpoint events_of (tr : list action) : list ChatEvent :=
  match tr with
  | [] => []
  | Yield e :: rest => e :: events_of rest
  | Send e :: rest => e :: events_of rest
  | _ :: rest => events_of rest
  end.

Definition is_backend_call (a : action) : bool :=
  match a with
  | StreamChat _ _ _ | Chat _ _ _ => true
  | _ => false
  end.

(** An event sequence of the protocol: [Token] events, then one terminal
    event ([Done] or [Error]), then nothing. *)
Definition well_terminated (events : list ChatEvent) : Prop :=
  exists (tokens : list string) (last : ChatEvent),
    events = map Token tokens ++ [last] /\ is_terminal last = true.

(** Number of terminal events in a sequence. *)
Definition terminal_count (events : list ChatEvent) : nat :=
  length (filter (fun e => is_terminal e = true) events).

(** ** deps.py *)

Module Deps.

(** Request headers, keys in lower case. *)
Abbreviation Headers := (list (string * string)).

Fixpoint header_get (headers : Headers) (name : string) : option string :=
  match headers with
  | [] => None
  | (k, v) :: rest => if String.eqb k name then Some v else header_get rest name
  end.

(** [s.split(",")[0]]. *)
Fixpoint before_comma (s : string) : string :=
  match s with
  | EmptyString => EmptyString
  | String c rest => if Ascii.eqb c (Ascii.ascii_of_nat 44) then EmptyString else String c (before_comma rest)
  end.

(** White space as [str.strip] sees it on a latin-1 decoded header. *)
Definition is_space (c : Ascii.ascii) : bool :=
  let n := Ascii.nat_of_ascii c in
  ((9 <=? n) && (n <=? 13) || (28 <=? n) && (n <=? 32) || (n =? 133) || (n =? 160))%nat.

Fixpoint lstrip (s : string) : string :=
  match s with
  | EmptyString => EmptyString
  | String c rest => if is_space c then lstrip rest else s
  end.

Fixpoint rstrip (s : string) : string :=
  match s with
  | EmptyString => EmptyString
  | String c rest =>
      match rstrip rest with
      | EmptyString => if is_space c then EmptyString else String c EmptyString
      | r => String c r
      end
  end.

Definition strip (s : string) : string := rstrip (lstrip s).

Definition nonempty (s : string) : bool := negb (String.eqb s "").

Definition _client_identifier_from_headers (headers : Headers) (fallback : option string) : string :=
  match header_get headers "x-forwarded-for" with
  | Some forwarded_for =>
      if nonempty forwarded_for then strip (before_comma forwarded_for)
      else match fallback with
           | Some f => if nonempty f then f else "anonymous"
           | None => "anonymous"
           end
  | None =>
      match fallback with
      | Some f => if nonempty f then f else "anonymous"
      | None => "anonymous"
      end
  end.

(** [get_rate_limiter()], cached after its first successful call. *)
Definition get_rate_limiter (settings : Settings) : M RateLimiter.t :=
  fun w =>
    match limiter w with
    | Some lim => (Ok lim, w)
    | None =>
        match RateLimiter.__init__ (rate_limit_rps settings) (rate_limit_burst settings) with
        | Ok lim => (Ok lim, {| limiter := Some lim; metrics := metrics w;
                                websocket := websocket w; trace := trace w |})
        | Raise e => (Raise e, w)
        end
    end.

(** [await limiter.allow(client_id)] on the shared limiter; the call is
    recorded in the trace with its answer. *)
Definition limiter_allow (lim : RateLimiter.t) (client_id : string) (now : Q) : M bool :=
  fun w =>
    let '(answer, lim') := RateLimiter.allow lim client_id now in
    (Ok answer, {| limiter := Some lim'; metrics := metrics w;
                   websocket := websocket w;
                   trace := trace w ++ [Allow client_id answer] |}).

(** A request or a WebSocket handshake, as the dependencies read it. *)
Record Peer : Type := {
  headers : Headers;
  client_host : option string
}.

Definition enforce_rate_limit (settings : Settings) (request : Peer) (now : Q) : M unit :=
  let! lim := get_rate_limiter settings in
  let client_id := _client_identifier_from_headers (headers request) (client_host request) in
  let! allowed := limiter_allow lim client_id now in
  if negb allowed then raise (HTTPException 429 "Rate limit exceeded") else ret tt.

Definition enforce_rate_limit_ws (settings : Settings) (websocket : Peer) (now : Q) : M unit :=
  let! lim := get_rate_limiter settings in
  let client := client_host websocket in
  let client_id := _client_identifier_from_headers (headers websocket) client in
  let! allowed := limiter_allow lim client_id now in
  if negb allowed then raise (WebSocketException 1008 "Rate limit exceeded") else ret tt.

Definition _should_enforce (settings : Settings) : bool := negb (api_key_optional settings).

Definition _assert_key_configured (settings : Settings) : result string :=
  if nonempty (api_key settings) then Ok (api_key settings)
  else Raise (HTTPException 500 "API key not configured").

Definition verify_api_key (settings : Settings) (request : Peer) : result unit :=
  if negb (_should_enforce settings) then Ok tt
  else
    let* expected := _assert_key_configured settings in
    match header_get (headers request) "x-api-key" with
    | Some provided =>
        if nonempty provided && String.eqb provided expected then Ok tt
        else Raise (HTTPException 401 "Invalid API key")
    | None => Raise (HTTPException 401 "Invalid API key")
    end.

Definition verify_api_key_ws (settings : Settings) (websocket : Peer) : result unit :=
  if negb (_should_enforce settings) then Ok tt
  else
    let expected := api_key settings in
    if negb (nonempty expected) then Raise (WebSocketException 1011 "API key not configured")
    else
      match header_get (headers websocket) "x-api-key" with
      | Some provided =>
          if nonempty provided && String.eqb provided expected then Ok tt
          else Raise (WebSocketException 1008 "Invalid API key")
      | None => Raise (WebSocketException 1008 "Invalid API key")
      end.

End Deps.

(** ** main.py *)

Module Main.
Import Schemas.

(** What [ollama_client.stream_chat] produces for one call: the chunks it
    yields and, when the transport fails after them, the
    [OllamaServiceError(message, status_code)] it raises. *)
Record BackendStream : Type := {
  chunks : list dict;
  failure : option (string * Z)
}.

(** What one request or turn meets: the backend's answer to a streaming
    call and the two readings of [time.perf_counter()], at the start and
    where the latency is computed. *)
Record TurnEnv : Type := {
  backend : BackendStream;
  t_start : Q;
  t_end : Q
}.

Definition _build_options (payload : ChatRequest) : Options :=
  {| opt_temperature := temperature payload;
     opt_top_p := top_p payload;
     opt_seed := seed payload |}.

Definition _token_from_chunk `{Builtins} (chunk : dict) : string :=
  if contains chunk "response" && truthy (get chunk "response")
  then py_str (get chunk "response")
  else
    let message := py_or (get chunk "message") (VDict []) in
    match message with
    | VDict m =>
        let content := get m "content" in
        if truthy content then py_str content else ""
    | _ => ""
    end.

Definition _usage_from_chunk `{Builtins} (chunk : dict) : result UsageStats :=
  let* prompt := py_int (py_or (get chunk "prompt_eval_count") (VInt 0)) in
  let* completion := py_int (py_or (get chunk "eval_count") (VInt 0)) in
  Ok (UsageStats_new prompt completion).

Definition _map_status (status_code : Z) : Z :=
  if (status_code >=? 500)%Z then 502%Z else status_code.

Definition _extract_content `{Builtins} (response : dict) : string :=
  match get response "message" with
  | VDict m =>
      if truthy (get m "content") then py_str (get m "content")
      else if truthy (get response "response") then py_str (get response "response")
      else ""
  | _ =>
      if truthy (get response "response") then py_str (get response "response")
      else ""
  end.

(** [int((time.perf_counter() - started) * 1000)]. *)
Definition elapsed_ms (started now : Q) : Z :=
  Metrics.py_int_of_float ((now - started) * 1000).

(** [payload.model or settings.default_model]. *)
Definition model_or_default (settings : Settings) (model : option string) : string :=
  match model with
  | Some m => if Deps.nonempty m then m else default_model settings
  | None => default_model settings
  end.

Definition _send_ws_error (message : string) (details : option string) : M unit :=
  fun w =>
    match application_state (websocket w) with
    | CONNECTED => send_json (Error message details) w
    | _ => (Ok tt, w)
    end.

(** The text of an exception raised inside a turn, [str(exc)]: the
    exceptions of the builtins and of the backend client carry their
    message. *)
Definition exn_text (e : exn) : string :=
  match e with
  | ValueError msg => msg
  | TypeError msg => msg
  | IndexError => "list index out of range"
  | ValidationError msg => msg
  | HTTPException _ detail => detail
  | WebSocketException _ reason => reason
  | WebSocketDisconnect => ""
  | OllamaServiceError message _ => message
  end.

(** *** The SSE generator *)

(** The [async for] loop of [_sse_chat_generator]; it returns [done_sent]
    and [collected]. *)
Fixpoint sse_consume `{Builtins} (started finished : Q) (chunks : list dict)
    (failure : option (string * Z)) (collected : list string) : M (bool * list string) :=
  match chunks with
  | [] =>
      match failure with
      | Some (message, status_code) => raise (OllamaServiceError message status_code)
      | None => ret (false, collected)
      end
  | chunk :: rest =>
      if truthy (get chunk "error") then
        raise (HTTPException 502 (py_str (get chunk "error")))
      else
        let token := _token_from_chunk chunk in
        let! collected :=
          (if Deps.nonempty token
           then let! _ := emit (Yield (Token token)) in ret (collected ++ [token])
           else ret collected) in
        if truthy (get chunk "done") then
          let! usage := lift (_usage_from_chunk chunk) in
          let latency_ms := elapsed_ms started finished in
          let usage := set_total_tokens usage (prompt_tokens usage + completion_tokens usage) in
          let! _ := record_sample latency_ms (prompt_tokens usage) (completion_tokens usage) in
          let! _ := emit (Yield (Done (String.concat "" collected) usage latency_ms)) in
          ret (true, collected)
        else sse_consume started finished rest failure collected
  end.

Definition _sse_chat_generator `{Builtins} (model_name : string)
    (messages : list ChatMessage) (options : Options) (env : TurnEnv) : M unit :=
  let started := t_start env in
  let! outcome :=
    try_except
      (let! _ := emit (StreamChat model_name messages options) in
       sse_consume started (t_end env) (chunks (backend env)) (failure (backend env)) [])
      (fun exc =>
         match exc with
         | OllamaServiceError message status_code =>
             raise (HTTPException (_map_status status_code) message)
         | _ => raise exc
         end) in
  let done_sent := outcome.1 in
  let collected := outcome.2 in
  if negb done_sent then
    let latency_ms := elapsed_ms started (t_end env) in
    let usage := UsageStats_new 0 0 in
    let! _ := record_sample latency_ms 0 0 in
    emit (Yield (Done (String.concat "" collected) usage latency_ms))
  else ret tt.

(** *** The WebSocket turn *)

(** The [async for] loop of [_handle_websocket_chat]; it returns [None]
    when the function returned from inside the loop and [Some collected]
    when the stream was exhausted. *)
Fixpoint ws_consume `{Builtins} (started finished : Q) (chunks : list dict)
    (failure : option (string * Z)) (collected : list string) : M (option (list string)) :=
  match chunks with
  | [] =>
      match failure with
      | Some (message, status_code) => raise (OllamaServiceError message status_code)
      | None => ret (Some collected)
      end
  | chunk :: rest =>
      if truthy (get chunk "error") then
        let! _ := _send_ws_error (py_str (get chunk "error")) None in
        ret None
      else
        let token := _token_from_chunk chunk in
        let! collected :=
          (if Deps.nonempty token
           then let! _ := send_json (Token token) in ret (collected ++ [token])
           else ret collected) in
        if truthy (get chunk "done") then
          let! usage := lift (_usage_from_chunk chunk) in
          let usage := set_total_tokens usage (prompt_tokens usage + completion_tokens usage) in
          let latency_ms := elapsed_ms started finished in
          let! _ := record_sample latency_ms (prompt_tokens usage) (completion_tokens usage) in
          let! _ := send_json (Done (String.concat "" collected) usage latency_ms) in
          ret None
        else ws_consume started finished rest failure collected
  end.

Definition _handle_websocket_chat `{Builtins} (settings : Settings)
    (chat_request : ChatRequest) (env : TurnEnv) : M unit :=
  let started := t_start env in
  try_except
    (let! _ := emit (StreamChat
                       (model_or_default settings (model chat_request))
                       (messages chat_request)
                       (_build_options chat_request)) in
     let! exhausted :=
       ws_consume started (t_end env) (chunks (backend env)) (failure (backend env)) [] in
     match exhausted with
     | None => ret tt
     | Some collected =>
         let latency_ms := elapsed_ms started (t_end env) in
         let! _ := record_sample latency_ms 0 0 in
         send_json (Done (String.concat "" collected) (UsageStats_new 0 0) latency_ms)
     end)
    (fun exc =>
       match exc with
       | WebSocketDisconnect => ret tt
       | OllamaServiceError message _ => _send_ws_error message None
       | _ => _send_ws_error ("Unexpected error: " ++ exn_text exc) None
       end).

(** *** POST /api/chat *)

(** What a POST /api/chat request meets: the reading of
    [time.monotonic()] in the limiter, the streaming backend and the
    latency clock, the answer of [ollama_client.chat] (a response, or the
    exception it raises) and the value of [uuid.uuid4()]. *)
Record RequestEnv : Type := {
  admit_clock : Q;
  turn : TurnEnv;
  chat_reply : result dict;
  fresh_uuid : string
}.

Inductive Response : Type :=
| JsonResponse (body : ChatResponse)
| StreamingResponse (aborted : option exn)
| ErrorResponse (status_code : Z) (detail : string).

(** The endpoint function.  For a streaming request it returns a
    [StreamingResponse] over the generator, which the framework then
    drains while it sends the body; [aborted] holds the exception that
    ended the generator, if any. *)
Definition chat_endpoint `{Builtins} (settings : Settings) (payload : ChatRequest)
    (env : RequestEnv) : M Response :=
  let model_name := model_or_default settings (model payload) in
  let messages := messages payload in
  let options := _build_options payload in
  if stream payload then
    fun w =>
      match _sse_chat_generator model_name messages options (turn env) w with
      | (Ok _, w') => (Ok (StreamingResponse None), w')
      | (Raise e, w') => (Ok (StreamingResponse (Some e)), w')
      end
  else
    let started := t_start (turn env) in
    let! _ := emit (Chat model_name messages options) in
    let! response :=
      match chat_reply env with
      | Ok r => ret r
      | Raise (OllamaServiceError message status_code) =>
          raise (HTTPException (_map_status status_code) message)
      | Raise e => raise e
      end in
    let content := _extract_content response in
    let! prompt := lift (py_int (py_or (get response "prompt_eval_count") (VInt 0))) in
    let! completion := lift (py_int (py_or (get response "eval_count") (VInt 0))) in
    let usage := set_total_tokens (UsageStats_new prompt completion) (prompt + completion) in
    let latency_ms := elapsed_ms started (t_end (turn env)) in
    let! _ := record_sample latency_ms (prompt_tokens usage) (completion_tokens usage) in
    ret (JsonResponse
           {| id := py_or (get response "id") (VStr (fresh_uuid env));
              response_model := py_or (get response "model") (VStr model_name);
              response_content := content;
              usage := usage;
              latency_ms := latency_ms |}).

(** The route as FastAPI serves it: the dependencies of the decorator run
    first, in their order ([verify_api_key], [enforce_rate_limit]); then the
    body is validated against [ChatRequest]; then the endpoint is called.
    An [HTTPException] becomes the response with its status, a validation
    error the 422 response, any other exception a 500. *)
Definition exception_response (exc : exn) : Response :=
  match exc with
  | HTTPException status_code detail => ErrorResponse status_code detail
  | ValidationError msg => ErrorResponse 422 msg
  | _ => ErrorResponse 500 "Internal Server Error"
  end.

Definition post_api_chat `{Builtins} (settings : Settings) (request : Deps.Peer)
    (body : RawChatRequest) (env : RequestEnv) : M Response :=
  try_except
    (let! _ := lift (Deps.verify_api_key settings request) in
     let! _ := Deps.enforce_rate_limit settings request (admit_clock env) in
     let! payload := lift (validate body) in
     chat_endpoint settings payload env)
    (fun exc => ret (exception_response exc)).

(** *** WebSocket /ws/chat *)

(** The object under ["params"] of a turn message: for each key, absent
    ([None]) or present with its value, which may be [null]. *)
Record TurnParams : Type := {
  p_temperature : option (option Q);
  p_top_p : option (option Q);
  p_seed : option (option Z)
}.

Record TurnData : Type := {
  d_model : option string;
  d_messages : list RawMessage;
  d_temperature : option Q;
  d_top_p : option Q;
  d_seed : option Z;
  d_params : option TurnParams
}.

(** What [websocket.receive_json()] gives. *)
Inductive Inbound : Type :=
| ClientDisconnect
| Garbled (why : string)
| Message (data : TurnData).

Definition merged_payload (data : TurnData) : RawChatRequest :=
  let params :=
    match d_params data with
    | Some p => p
    | None => {| p_temperature := None; p_top_p := None; p_seed := None |}
    end in
  {| raw_model := d_model data;
     raw_messages := d_messages data;
     raw_stream := true;
     raw_temperature := match p_temperature params with
                        | Some v => v
                        | None => d_temperature data
                        end;
     raw_top_p := match p_top_p params with
                  | Some v => v
                  | None => d_top_p data
                  end;
     raw_seed := match p_seed params with
                 | Some v => v
                 | None => d_seed data
                 end |}.

(** The [while True] loop of [websocket_chat] over the messages the client
    sends, each with what its turn meets. *)
Fixpoint ws_turns `{Builtins} (settings : Settings) (inbound : list (Inbound * TurnEnv)) : M unit :=
  match inbound with
  | [] => ret tt
  | (ClientDisconnect, _) :: _ => ret tt
  | (Garbled why, _) :: rest =>
      let! _ := _send_ws_error ("Invalid message: " ++ why) None in
      ws_turns settings rest
  | (Message data, env) :: rest =>
      match validate (merged_payload data) with
      | Raise (ValidationError msg) =>
          let! _ := _send_ws_error "Invalid payload" (Some msg) in
          ws_turns settings rest
      | Raise e => raise e
      | Ok chat_request =>
          let! _ := _handle_websocket_chat settings chat_request env in
          ws_turns settings rest
      end
  end.

(** The route: its two dependencies run once, at the handshake; then the
    connection is accepted and serves its turns. *)
Definition websocket_chat `{Builtins} (settings : Settings) (handshake : Deps.Peer)
    (now : Q) (inbound : list (Inbound * TurnEnv)) : M unit :=
  let! _ := lift (Deps.verify_api_key_ws settings handshake) in
  let! _ := Deps.enforce_rate_limit_ws settings handshake now in
  let! _ := accept in
  ws_turns settings inbound.

(** The process at start-up. *)
Definition initial_world : World :=
  {| limiter := None; metrics := Metrics.metrics;
     websocket := {| application_state := CONNECTING; peer_accepts := None |};
     trace := [] |}.

(** A world whose socket is accepted and whose peer stays connected. *)
Definition connected (w : World) : Prop :=
  application_state (websocket w) = CONNECTED /\ peer_accepts (websocket w) = None.

(** *** The chunk state machine of the specification

    Section 4.3 of the specification, as a function of the chunk sequence:
    the texts of the [Token] events in order, and the way the turn ends.
    An error chunk fails the turn at once; a chunk that signals completion
    completes it with the usage read from that chunk; a stream that ends
    without either is truncated.  [Crashed] covers what the specification
    leaves open: the backend raising, and usage counters that [int]
    rejects. *)
Inductive Outcome : Type :=
| Completed (collected : list string) (usage : UsageStats)
| Truncated (collected : list string)
| Failed (message : string)
| Crashed (e : exn).

Fixpoint translate `{Builtins} (chunks : list dict) (failure : option (string * Z))
    (collected : list string) : list string * Outcome :=
  match chunks with
  | [] =>
      ([], match failure with
           | Some (message, status_code) => Crashed (OllamaServiceError message status_code)
           | None => Truncated collected
           end)
  | chunk :: rest =>
      if truthy (get chunk "error") then ([], Failed (py_str (get chunk "error")))
      else
        let token := _token_from_chunk chunk in
        let emitted := if Deps.nonempty token then [token] else [] in
        if truthy (get chunk "done") then
          (emitted,
           match _usage_from_chunk chunk with
           | Ok u => Completed (collected ++ emitted)
                       (set_total_tokens u (prompt_tokens u + completion_tokens u))
           | Raise e => Crashed e
           end)
        else
          let r := translate rest failure (collected ++ emitted) in
          (emitted ++ r.1, r.2)
  end.

(** The non-empty texts the chunks carry, in order. *)
Definition tokens_of `{Builtins} (chunks : list dict) : list string :=
  filter (fun t => Deps.nonempty t = true) (map _token_from_chunk chunks).

(** A chunk that carries neither an error indicator nor a completion
    marker. *)
Definition plain (chunk : dict) : Prop :=
  truthy (get chunk "error") = false /\ truthy (get chunk "done") = false.

(** How the WebSocket turn ends for each outcome of the state machine: the
    terminal frame it sends. *)
Definition ws_terminal (latency_ms : Z) (out : Outcome) : ChatEvent :=
  match out with
  | Completed collected usage => Done (String.concat "" collected) usage latency_ms
  | Truncated collected => Done (String.concat "" collected) (UsageStats_new 0 0) latency_ms
  | Failed message => Error message None
  | Crashed (OllamaServiceError message _) => Error message None
  | Crashed e => Error ("Unexpected error: " ++ exn_text e) None
  end.

(** How the SSE generator ends for each outcome: the terminal block it
    yields, if any, and the way the generator finishes. *)
Definition sse_terminal (latency_ms : Z) (out : Outcome) : list ChatEvent :=
  match out with
  | Completed collected usage => [Done (String.concat "" collected) usage latency_ms]
  | Truncated collected => [Done (String.concat "" collected) (UsageStats_new 0 0) latency_ms]
  | Failed _ | Crashed _ => []
  end.

Definition sse_result (out : Outcome) : result unit :=
  match out with
  | Completed _ _ | Truncated _ => Ok tt
  | Failed message => Raise (HTTPException 502 message)
  | Crashed (OllamaServiceError message status_code) =>
      Raise (HTTPException (_map_status status_code) message)
  | Crashed e => Raise e
  end.

(** The collector after a turn with the given outcome: one sample for a
    completed or truncated turn, none otherwise. *)
Definition metrics_after (m : Metrics.t) (latency_ms : Z) (out : Outcome) : Metrics.t :=
  match out with
  | Completed _ usage =>
      Metrics.record m (inject_Z latency_ms) (prompt_tokens usage) (completion_tokens usage)
  | Truncated _ => Metrics.record m (inject_Z latency_ms) 0 0
  | Failed _ | Crashed _ => m
  end.

(** *** Data for the examples *)

(** An interpreter for the examples: objects other than strings print as
    ["<object>"] and no string is a numeral. *)
Definition example_builtins : Builtins :=
  {| repr := fun _ => "<object>"; int_of_str := fun _ => None;
     int_type_error := fun _ => "int() argument must be a string or a number" |}.

(** The process at start-up with an accepted socket. *)
Definition serving_world : World :=
  {| limiter := None; metrics := Metrics.metrics;
     websocket := {| application_state := CONNECTED; peer_accepts := None |};
     trace := [] |}.

Definition no_options : Options :=
  {| opt_temperature := None; opt_top_p := None; opt_seed := None |}.

Definition hi_request : ChatRequest :=
  {| model := None; messages := [{| role := user; content := "hi" |}]; stream := true;
     temperature := None; top_p := None; seed := None |}.

(** The turn of the examples: the given chunks, no backend failure, a
    quarter of a second between the two clock readings. *)
Definition example_turn (stream : list dict) : TurnEnv :=
  {| backend := {| chunks := stream; failure := None |}; t_start := 0; t_end := 1 # 4 |}.

(** *** Reading a trace *)

Definition is_allow (a : action) : bool :=
  match a with
  | Allow _ _ => true
  | _ => false
  end.

(** Every backend call of the trace comes after an admission of
    [client_id] by the limiter. *)
Definition admitted_first (client_id : string) (tr : list action) : Prop :=
  forall pre a post,
    tr = pre ++ a :: post -> is_backend_call a = true -> In (Allow client_id true) pre.

(** A computation that only appends to the trace, and never a call of the
    limiter. *)
Definition quiet {A : Type} (m : M A) : Prop :=
  forall w, exists ext,
    trace (m w).2 = trace w ++ ext /\ Forall (fun a => is_allow a = false) ext.

(** A client behind a proxy, and a chat request with no messages. *)
Definition proxied_client : Deps.Peer :=
  {| Deps.headers := [("x-forwarded-for", "10.0.0.7, 172.16.0.1")];
     Deps.client_host := Some "127.0.0.1" |}.

Definition empty_body : RawChatRequest :=
  {| raw_model := None; raw_messages := []; raw_stream := false;
     raw_temperature := None; raw_top_p := None; raw_seed := None |}.

Definition hi_body (streaming : bool) : RawChatRequest :=
  {| raw_model := None;
     raw_messages := [{| raw_role := "user"; raw_content := "hi" |}];
     raw_stream := streaming;
     raw_temperature := None; raw_top_p := None; raw_seed := None |}.

Definition hi_turn : TurnData :=
  {| d_model := None;
     d_messages := [{| raw_role := "user"; raw_content := "hi" |}];
     d_temperature := None; d_top_p := None; d_seed := None; d_params := None |}.

(** What the request of the examples meets: the limiter reads the clock at
    [now]; the backend streams one text and a done chunk. *)
Definition example_request_env (now : Q) : RequestEnv :=
  {| admit_clock := now;
     turn := example_turn [[("response", VStr "hello")];
                           [("done", VBool true); ("prompt_eval_count", VInt 5);
                            ("eval_count", VInt 2)]];
     chat_reply := Ok [("message", VDict [("content", VStr "hello")]);
                       ("prompt_eval_count", VInt 5); ("eval_count", VInt 2)];
     fresh_uuid := "00000000-0000-4000-8000-000000000000" |}.

(** The process after the client of the examples has used up its burst of
    six at clock reading 0. *)
Definition exhausted_world : World :=
  {| limiter := Some (RateLimiter.run
                        {| RateLimiter.rate := 3; RateLimiter.capacity := inject_Z 6;
                           RateLimiter._buckets := ∅ |}
                        (RateLimiter.burst_of "10.0.0.7" 0 6)).2;
     metrics := Metrics.metrics;
     websocket := {| application_state := CONNECTING; peer_accepts := None |};
     trace := [] |}.

(** The three shapes of the trace of a request or a connection: nothing
    (stopped before the limiter was asked), a rejected admission and
    nothing else, or an admission followed by actions among which the
    limiter is not asked again. *)
Definition trace_shape (client_id : string) (before after : list action) : Prop :=
  after = before \/
  after = before ++ [Allow client_id false] \/
  exists ext, after = before ++ Allow client_id true :: ext /\
              Forall (fun a => is_allow a = false) ext.

End Main.

(** ** Histories of the collector *)

(** The arguments of one call of [record]. *)
Record Sample : Type := {
  sample_latency_ms : Q;
  sample_prompt_tokens : Z;
  sample_completion_tokens : Z
}.

(** The collector after the given calls of [record], in order. *)
Definition record_each (m : Metrics.t) (samples : list Sample) : Metrics.t :=
  foldl (fun m s => Metrics.record m (sample_latency_ms s)
                      (sample_prompt_tokens s) (sample_completion_tokens s))
        m samples.

(** The latency a sample leaves in the window. *)
Definition clamped_latency (s : Sample) : Q := py_max 0 (sample_latency_ms s).

(** The value at the fractional position [k] of a list: the item at [k]
    when [k] is whole, else its two neighbours weighted by their distance
    to [k]. *)
Definition interpolate (values : list Q) (k : Q) : Q :=
  let f := Qfloor k in
  let c := Qceiling k in
  if (f =? c)%Z then nth (Z.to_nat f) values 0%Q
  else (nth (Z.to_nat f) values 0 * (inject_Z c - k)
        + nth (Z.to_nat c) values 0 * (k - inject_Z f))%Q.

(** ** Shapes of header values *)

(** Strings of white space only, strings without a comma, and strings of
    ASCII characters only. *)
Fixpoint all_space (s : string) : bool :=
  match s with
  | EmptyString => true
  | String c rest => Deps.is_space c && all_space rest
  end.

Fixpoint no_comma (s : string) : bool :=
  match s with
  | EmptyString => true
  | String c rest => negb (Ascii.eqb c (Ascii.ascii_of_nat 44)) && no_comma rest
  end.

Fixpoint ascii_only (s : string) : bool :=
  match s with
  | EmptyString => true
  | String c rest => (Ascii.nat_of_ascii c <? 128)%nat && ascii_only rest
  end.

(** ** Requests as the backend sees them *)

(** The role of a message as [model_dump] gives it. *)
Definition role_name (r : Schemas.Role) : string :=
  match r with
  | Schemas.system => "system"
  | Schemas.user => "user"
  | Schemas.assistant => "assistant"
  end.

(** The constraints of the fields of [ChatRequest], on the fields as they
    arrive. *)
Definition well_formed (raw : Schemas.RawChatRequest) : Prop :=
  Schemas.raw_messages raw <> [] /\
  Forall (fun m => In (Schemas.raw_role m) ["system"; "user"; "assistant"]%string)
         (Schemas.raw_messages raw) /\
  (forall t, Schemas.raw_temperature raw = Some t -> (0 <= t)%Q /\ (t <= 2)%Q) /\
  (forall p, Schemas.raw_top_p raw = Some p -> (0 <= p)%Q /\ (p <= 1)%Q) /\
  (forall s, Schemas.raw_seed raw = Some s -> (0 <= s)%Z).

(** ** Reading what a handler did *)

(** The events a computation adds to the trace of [w], and the backend
    calls among the actions it adds. *)
Definition new_events {A : Type} (m : M A) (w : World) : list ChatEvent :=
  events_of (drop (length (trace w)) (trace (m w).2)).

Definition new_backend_calls {A : Type} (m : M A) (w : World) : list action :=
  filter (fun a => is_backend_call a = true) (drop (length (trace w)) (trace (m w).2)).

(** The messages of a connection that reach the server: those before the
    client leaves. *)
Fixpoint served (inbound : list (Main.Inbound * Main.TurnEnv)) :
    list (Main.Inbound * Main.TurnEnv) :=
  match inbound with
  | [] => []
  | (Main.ClientDisconnect, _) :: _ => []
  | turn :: rest => turn :: served rest
  end.

(** A message that parses and passes the validation of [ChatRequest]. *)
Definition accepted (turn : Main.Inbound * Main.TurnEnv) : bool :=
  match turn.1 with
  | Main.Message data =>
      match Schemas.validate (Main.merged_payload data) with
      | Ok _ => true
      | Raise _ => false
      end
  | _ => false
  end.

(** The requests a response answers: a JSON body, or a stream that ran to
    its [Done] block. *)
Definition answered (response : Main.Response) : bool :=
  match response with
  | Main.JsonResponse _ => true
  | Main.StreamingResponse None => true
  | Main.StreamingResponse (Some _) => false
  | Main.ErrorResponse _ _ => false
  end.

(** ** ollama_client.py: the request sent to the backend *)

Module OllamaClient.

(** [message.model_dump()]. *)
Definition model_dump (m : Schemas.ChatMessage) : value :=
  VDict [("role"%string, VStr (role_name (Schemas.role m)));
         ("content"%string, VStr (Schemas.content m))].

(** The dict that [_build_options] returns: the parameters that are not
    [None], in the order [temperature], [top_p], [seed]. *)
Definition options_dict (o : Options) : dict :=
  match opt_temperature o with Some t => [("temperature"%string, VFloat t)] | None => [] end
  ++ match opt_top_p o with Some p => [("top_p"%string, VFloat p)] | None => [] end
  ++ match opt_seed o with Some s => [("seed"%string, VInt s)] | None => [] end.

(** [v is None]. *)
Definition is_none (v : value) : bool :=
  match v with
  | VNone => true
  | _ => false
  end.

Definition _build_payload (model : string) (messages : list value) (stream : bool)
    (options : option dict) : dict :=
  let payload := [("model"%string, VStr model); ("messages"%string, VList messages);
                  ("stream"%string, VBool stream)] in
  let items := match options with
               | Some o => if truthy (VDict o) then o else []
               | None => []
               end in
  let filtered_options := filter (fun kv => negb (is_none kv.2) = true) items in
  if truthy (VDict filtered_options)
  then payload ++ [("options"%string, VDict filtered_options)]
  else payload.

End OllamaClient.

(** * Properties *)

(** ** Float comparisons and the builtins [min], [max] *)

Lemma Qltb_true (x y : Q) : Qltb x y = true <-> (x < y)%Q.
Proof.
  unfold Qltb. rewrite negb_true_iff.
  split.
  - intros H. apply Qnot_le_lt. intros Hle.
    apply Qle_bool_iff in Hle. congruence.
  - intros H. destruct (Qle_bool y x) eqn:E; [|reflexivity].
    apply Qle_bool_iff in E. exfalso. apply (Qlt_not_le _ _ H E).
Qed.

Lemma Qltb_false (x y : Q) : Qltb x y = false <-> (y <= x)%Q.
Proof.
  unfold Qltb. rewrite negb_false_iff. apply Qle_bool_iff.
Qed.

Lemma py_min_cases (a b : Q) :
  (py_min a b = b /\ (b < a)%Q) \/ (py_min a b = a /\ (a <= b)%Q).
Proof.
  unfold py_min. destruct (Qltb b a) eqn:E.
  - left. split; [reflexivity|]. now apply Qltb_true.
  - right. split; [reflexivity|]. now apply Qltb_false.
Qed.

Lemma py_max_cases (a b : Q) :
  (py_max a b = b /\ (a < b)%Q) \/ (py_max a b = a /\ (b <= a)%Q).
Proof.
  unfold py_max. destruct (Qltb a b) eqn:E.
  - left. split; [reflexivity|]. now apply Qltb_true.
  - right. split; [reflexivity|]. now apply Qltb_false.
Qed.

(** [py_min] and [py_max] agree with the mathematical minimum and maximum. *)
Lemma py_min_Qmin (a b : Q) : (py_min a b == Qmin a b)%Q.
Proof.
  destruct (py_min_cases a b) as [[-> H]|[-> H]].
  - symmetry. apply Q.min_r. now apply Qlt_le_weak.
  - symmetry. now apply Q.min_l.
Qed.

Lemma py_max_Qmax (a b : Q) : (py_max a b == Qmax a b)%Q.
Proof.
  destruct (py_max_cases a b) as [[-> H]|[-> H]].
  - symmetry. apply Q.max_r. now apply Qlt_le_weak.
  - symmetry. now apply Q.max_l.
Qed.

Lemma py_max_0_nonneg (x : Q) : (0 <= py_max 0 x)%Q.
Proof. destruct (py_max_cases 0 x) as [[-> H]|[-> H]]; lra. Qed.

(** ** The token bucket *)

Section RateLimiterFacts.
Import RateLimiter.

Lemma allow_unfold (self : t) (client_id : string) (now : Q) :
  let b := bucket_of self client_id now in
  let refilled := py_min (capacity self)
                    (tokens b + py_max 0 (now - timestamp b) * rate self) in
  allow self client_id now =
    if Qltb refilled 1
    then (false, store self client_id {| tokens := refilled; timestamp := now |})
    else (true, store self client_id {| tokens := refilled - 1; timestamp := now |}).
Proof. reflexivity. Qed.

Lemma refilled_spec (self : t) (b : Bucket) (now : Q) :
  (py_min (capacity self) (tokens b + py_max 0 (now - timestamp b) * rate self)
   == refill_spec self b now)%Q.
Proof.
  unfold refill_spec. rewrite py_min_Qmin.
  apply Q.min_compat; [reflexivity|].
  now rewrite py_max_Qmax.
Qed.

Lemma allow_rate (self : t) (client_id : string) (now : Q) :
  rate (allow self client_id now).2 = rate self.
Proof. rewrite allow_unfold. cbv zeta. now destruct (Qltb _ _). Qed.

Lemma allow_capacity (self : t) (client_id : string) (now : Q) :
  capacity (allow self client_id now).2 = capacity self.
Proof. rewrite allow_unfold. cbv zeta. now destruct (Qltb _ _). Qed.

(** A call touches the bucket of its own identity only. *)
Lemma allow_frame (self : t) (client_id other : string) (now : Q) :
  client_id ≠ other ->
  _buckets (allow self client_id now).2 !! other = _buckets self !! other.
Proof.
  intros Hne. rewrite allow_unfold. cbv zeta.
  destruct (Qltb _ _); simpl; now rewrite lookup_insert_ne.
Qed.

(** The answer and the stored bucket depend on the limiter only through
    its constants and the caller's own bucket. *)
Lemma allow_local (s1 s2 : t) (client_id : string) (now : Q) :
  rate s1 = rate s2 -> capacity s1 = capacity s2 ->
  _buckets s1 !! client_id = _buckets s2 !! client_id ->
  (allow s1 client_id now).1 = (allow s2 client_id now).1 /\
  _buckets (allow s1 client_id now).2 !! client_id
  = _buckets (allow s2 client_id now).2 !! client_id.
Proof.
  intros Hr Hc Hb. rewrite !allow_unfold. cbv zeta.
  unfold bucket_of. rewrite Hr, Hc, Hb.
  destruct (Qltb _ _); simpl; rewrite !lookup_insert_eq; auto.
Qed.

Lemma run_app (self : t) (xs ys : list (string * Q)) :
  run self (xs ++ ys) =
    ((run self xs).1 ++ (run (run self xs).2 ys).1, (run (run self xs).2 ys).2).
Proof.
  revert self. induction xs as [|[c n] xs IH]; intros self; simpl.
  - now destruct (run self ys).
  - destruct (allow self c n) as [r s1]. rewrite IH.
    destruct (run s1 xs) as [rs s2]. simpl.
    now destruct (run s2 ys).
Qed.

Lemma run_cons (self : t) (client_id : string) (now : Q) (rest : list (string * Q)) :
  run self ((client_id, now) :: rest) =
    ((allow self client_id now).1 :: (run (allow self client_id now).2 rest).1,
     (run (allow self client_id now).2 rest).2).
Proof.
  simpl. destruct (allow self client_id now) as [r s1]. simpl.
  destruct (run s1 rest) as [rs s2]. reflexivity.
Qed.

Lemma run_rate (self : t) (calls : list (string * Q)) :
  rate (run self calls).2 = rate self.
Proof.
  revert self. induction calls as [|[c n] calls IH]; intros self; simpl; [reflexivity|].
  pose proof (allow_rate self c n) as H.
  destruct (allow self c n) as [r s1]. specialize (IH s1).
  destruct (run s1 calls) as [rs s2]. simpl in *. congruence.
Qed.

Lemma run_capacity (self : t) (calls : list (string * Q)) :
  capacity (run self calls).2 = capacity self.
Proof.
  revert self. induction calls as [|[c n] calls IH]; intros self; simpl; [reflexivity|].
  pose proof (allow_capacity self c n) as H.
  destruct (allow self c n) as [r s1]. specialize (IH s1).
  destruct (run s1 calls) as [rs s2]. simpl in *. congruence.
Qed.

(** *** The range of the stored tokens *)

Lemma allow_in_range (self : t) (client_id : string) (now : Q) :
  (0 <= rate self)%Q -> (0 <= capacity self)%Q ->
  in_range self -> in_range (allow self client_id now).2.
Proof.
  intros Hrate Hcap Hinv.
  assert (Hb : (0 <= tokens (bucket_of self client_id now))%Q
               /\ (tokens (bucket_of self client_id now) <= capacity self)%Q).
  { unfold bucket_of. destruct (_buckets self !! client_id) as [b|] eqn:E.
    - exact (Hinv _ _ E).
    - simpl. split; lra. }
  rewrite allow_unfold. cbv zeta.
  set (b := bucket_of self client_id now) in *.
  pose proof (py_max_0_nonneg (now - timestamp b)) as Hel.
  pose proof (Qmult_le_0_compat _ _ Hel Hrate) as Hadd.
  set (add := (py_max 0 (now - timestamp b) * rate self)%Q) in *.
  destruct (py_min_cases (capacity self) (tokens b + add)) as [[Hm Hlt]|[Hm Hle]];
    rewrite Hm; clear Hm.
  - destruct (Qltb (tokens b + add) 1) eqn:E1; intros c' b' Hl; simpl in Hl;
      (destruct (decide (client_id = c')) as [->|Hne];
       [rewrite lookup_insert_eq in Hl; injection Hl as <-; simpl
       |rewrite lookup_insert_ne in Hl by done; exact (Hinv _ _ Hl)]).
    + destruct Hb. split; lra.
    + apply Qltb_false in E1. split; lra.
  - destruct (Qltb (capacity self) 1) eqn:E1; intros c' b' Hl; simpl in Hl;
      (destruct (decide (client_id = c')) as [->|Hne];
       [rewrite lookup_insert_eq in Hl; injection Hl as <-; simpl
       |rewrite lookup_insert_ne in Hl by done; exact (Hinv _ _ Hl)]).
    + split; lra.
    + apply Qltb_false in E1. split; lra.
Qed.

Lemma run_in_range (self : t) (calls : list (string * Q)) :
  (0 <= rate self)%Q -> (0 <= capacity self)%Q ->
  in_range self -> in_range (run self calls).2.
Proof.
  revert self. induction calls as [|[c n] calls IH]; intros self Hr Hc Hinv; simpl; [exact Hinv|].
  pose proof (allow_in_range self c n Hr Hc Hinv) as H1.
  pose proof (allow_rate self c n) as H2.
  pose proof (allow_capacity self c n) as H3.
  destruct (allow self c n) as [r s1]. simpl in *.
  specialize (IH s1). rewrite H2, H3 in IH. specialize (IH Hr Hc H1).
  destruct (run s1 calls) as [rs s2]. exact IH.
Qed.

Lemma init_ok (r : Q) (burst : Z) (lim : t) :
  __init__ r burst = Ok lim ->
  (0 < r)%Q /\ (0 < burst)%Z /\
  rate lim = r /\ capacity lim = inject_Z burst /\ _buckets lim = ∅.
Proof.
  unfold __init__. destruct (Qle_bool r 0) eqn:E1; [discriminate|].
  destruct (burst <=? 0)%Z eqn:E2; [discriminate|].
  intros [= <-]. simpl. repeat split; try reflexivity.
  - apply Qnot_le_lt. intros H. apply Qle_bool_iff in H. congruence.
  - apply Z.leb_gt in E2. exact E2.
Qed.

(** *** The refill rule *)

Lemma allow_rule (self : t) (client_id : string) (now : Q) :
  let b := bucket_of self client_id now in
  let refilled := refill_spec self b now in
  ((refilled < 1)%Q ->
     (allow self client_id now).1 = false /\
     exists b', _buckets (allow self client_id now).2 !! client_id = Some b' /\
                (tokens b' == refilled)%Q /\ timestamp b' = now) /\
  ((1 <= refilled)%Q ->
     (allow self client_id now).1 = true /\
     exists b', _buckets (allow self client_id now).2 !! client_id = Some b' /\
                (tokens b' == refilled - 1)%Q /\ timestamp b' = now).
Proof.
  intros b refilled. rewrite allow_unfold. cbv zeta. fold b.
  pose proof (refilled_spec self b now) as Hs. fold refilled in Hs.
  set (x := py_min _ _) in *.
  split; intros H.
  - assert (E : Qltb x 1 = true) by (apply Qltb_true; lra).
    rewrite E. simpl. split; [reflexivity|].
    eexists. rewrite lookup_insert_eq. split; [reflexivity|]. simpl. split; [exact Hs|reflexivity].
  - assert (E : Qltb x 1 = false) by (apply Qltb_false; lra).
    rewrite E. simpl. split; [reflexivity|].
    eexists. rewrite lookup_insert_eq. split; [reflexivity|]. simpl. split; [lra|reflexivity].
Qed.

(** The first call of an identity behaves as a call on a full bucket
    stamped with the current clock reading. *)
Lemma allow_fresh (self : t) (client_id : string) (now : Q) :
  _buckets self !! client_id = None ->
  allow self client_id now =
    allow (store self client_id {| tokens := capacity self; timestamp := now |}) client_id now.
Proof.
  intros Hn. rewrite !allow_unfold. cbv zeta. unfold bucket_of.
  rewrite Hn. simpl. rewrite lookup_insert_eq.
  unfold store. simpl. rewrite !insert_insert_eq. reflexivity.
Qed.

Lemma refill_spec_same_time (self : t) (b : Bucket) (now : Q) :
  (timestamp b == now)%Q -> (0 <= rate self)%Q ->
  (refill_spec self b now == Qmin (capacity self) (tokens b))%Q.
Proof.
  intros Ht Hr. unfold refill_spec.
  apply Q.min_compat; [reflexivity|].
  assert (E : (Qmax 0 (now - timestamp b) == 0)%Q).
  { apply Q.max_l. lra. }
  rewrite E. lra.
Qed.

Lemma inject_nat_succ (k : nat) :
  (inject_Z (Z.of_nat (S k)) == inject_Z (Z.of_nat k) + 1)%Q.
Proof. rewrite Nat2Z.inj_succ. unfold Z.succ. now rewrite inject_Z_plus. Qed.

Lemma inject_nat_nonneg (k : nat) : (0 <= inject_Z (Z.of_nat k))%Q.
Proof. change 0%Q with (inject_Z 0). rewrite <- Zle_Qle. lia. Qed.

(** A bucket holding [k] whole tokens admits the next [k] immediate calls
    and rejects the following ones. *)
Lemma burst_exact (n k : nat) (self : t) (client_id : string) (now : Q) (b : Bucket) :
  (0 <= rate self)%Q ->
  _buckets self !! client_id = Some b ->
  (timestamp b == now)%Q ->
  (tokens b == inject_Z (Z.of_nat k))%Q ->
  (tokens b <= capacity self)%Q ->
  (run self (burst_of client_id now n)).1
    = replicate (Nat.min n k) true ++ replicate (n - k) false /\
  exists b', _buckets (run self (burst_of client_id now n)).2 !! client_id = Some b' /\
             (timestamp b' == now)%Q /\
             (tokens b' == inject_Z (Z.of_nat (k - Nat.min n k)))%Q.
Proof.
  revert k self b. induction n as [|n IH]; intros k self b Hr Hl Ht Hk Hc.
  - simpl. split; [reflexivity|]. exists b. rewrite Nat.sub_0_r. auto.
  - unfold burst_of. simpl. fold (burst_of client_id now n).
    pose proof (allow_rule self client_id now) as Hrule. cbv zeta in Hrule.
    pose proof (allow_rate self client_id now) as Hrate.
    pose proof (allow_capacity self client_id now) as Hcap.
    assert (Hb : bucket_of self client_id now = b) by (unfold bucket_of; now rewrite Hl).
    rewrite Hb in Hrule.
    pose proof (refill_spec_same_time self b now Ht Hr) as Hre.
    assert (Hmin : (Qmin (capacity self) (tokens b) == tokens b)%Q) by (apply Q.min_r; exact Hc).
    destruct Hrule as [Hrej Hadm].
    destruct (allow self client_id now) as [r s1]. simpl in *.
    destruct k as [|k].
    + destruct Hrej as [-> (b' & Hl' & Hk' & Ht')].
      { rewrite Hre, Hmin, Hk. simpl. reflexivity. }
      destruct (IH 0%nat s1 b') as [Ha (b'' & Hl'' & Ht'' & Hk'')].
      * now rewrite Hrate.
      * exact Hl'.
      * rewrite Ht'. reflexivity.
      * rewrite Hk', Hre, Hmin, Hk. reflexivity.
      * rewrite Hcap, Hk', Hre, Hmin. exact Hc.
      * destruct (run s1 (burst_of client_id now n)) as [rs s2]. simpl in *.
        rewrite Ha. rewrite Nat.min_0_r, Nat.sub_0_r. simpl. split; [reflexivity|].
        exists b''. auto.
    + pose proof (inject_nat_succ k) as Hs. pose proof (inject_nat_nonneg k) as Hnn.
      destruct Hadm as [-> (b' & Hl' & Hk' & Ht')].
      { rewrite Hre, Hmin, Hk, Hs. lra. }
      destruct (IH k s1 b') as [Ha (b'' & Hl'' & Ht'' & Hk'')].
      * now rewrite Hrate.
      * exact Hl'.
      * rewrite Ht'. reflexivity.
      * rewrite Hk', Hre, Hmin, Hk, Hs. lra.
      * rewrite Hcap, Hk', Hre, Hmin. lra.
      * destruct (run s1 (burst_of client_id now n)) as [rs s2]. simpl in *.
        rewrite Ha. split; [reflexivity|].
        exists b''. auto.
Qed.

(** A bucket holding less than one token rejects every immediate call. *)
Lemma burst_starved (n : nat) (self : t) (client_id : string) (now : Q) (b : Bucket) :
  (0 <= rate self)%Q ->
  _buckets self !! client_id = Some b ->
  (timestamp b == now)%Q ->
  (tokens b < 1)%Q ->
  (run self (burst_of client_id now n)).1 = replicate n false.
Proof.
  revert self b. induction n as [|n IH]; intros self b Hr Hl Ht Hk; [reflexivity|].
  unfold burst_of. simpl. fold (burst_of client_id now n).
  pose proof (allow_rule self client_id now) as Hrule. cbv zeta in Hrule.
  pose proof (allow_rate self client_id now) as Hrate.
  assert (Hb : bucket_of self client_id now = b) by (unfold bucket_of; now rewrite Hl).
  rewrite Hb in Hrule.
  pose proof (refill_spec_same_time self b now Ht Hr) as Hre.
  pose proof (Q.le_min_r (capacity self) (tokens b)) as Hmin.
  destruct Hrule as [Hrej _].
  destruct (allow self client_id now) as [r s1]. simpl in *.
  destruct Hrej as [-> (b' & Hl' & Hk' & Ht')]; [lra|].
  specialize (IH s1 b'). rewrite Hrate in IH.
  assert (Ha : (run s1 (burst_of client_id now n)).1 = replicate n false).
  { apply IH; auto.
    - rewrite Ht'. reflexivity.
    - lra. }
  destruct (run s1 (burst_of client_id now n)) as [rs s2]. simpl in *. now rewrite Ha.
Qed.

Lemma run_fresh (self : t) (client_id : string) (now : Q) (rest : list (string * Q)) :
  _buckets self !! client_id = None ->
  run self ((client_id, now) :: rest) =
    run (store self client_id {| tokens := capacity self; timestamp := now |})
        ((client_id, now) :: rest).
Proof. intros Hn. simpl. now rewrite <- allow_fresh. Qed.

(** The first seven immediate calls of a new identity under rate 3, burst 6. *)
Lemma seven_calls (lim : t) (client_id : string) (t0 : Q) :
  rate lim = 3%Q -> capacity lim = inject_Z 6 -> _buckets lim !! client_id = None ->
  (run lim (burst_of client_id t0 7)).1 = [true; true; true; true; true; true; false] /\
  exists b, _buckets (run lim (burst_of client_id t0 7)).2 !! client_id = Some b /\
            (timestamp b == t0)%Q /\ (tokens b == 0)%Q.
Proof.
  intros Hr Hc Hn.
  change (burst_of client_id t0 7) with ((client_id, t0) :: burst_of client_id t0 6).
  rewrite (run_fresh _ _ _ _ Hn).
  change ((client_id, t0) :: burst_of client_id t0 6) with (burst_of client_id t0 7).
  set (s := store lim client_id _).
  destruct (burst_exact 7 6 s client_id t0 {| tokens := capacity lim; timestamp := t0 |})
    as [Ha (b & Hl & Ht & Hk)].
  - subst s. simpl. rewrite Hr. lra.
  - subst s. simpl. now rewrite lookup_insert_eq.
  - reflexivity.
  - simpl. rewrite Hc. reflexivity.
  - subst s. simpl. lra.
  - split; [exact Ha|]. exists b. repeat split; auto.
Qed.

(** *** Admission fairness *)




(** *** Range of the stored tokens *)

(** C8.  When the constructor accepts its arguments ([rate > 0],
    [burst > 0]), after any finite history of calls whose clock readings
    do not decrease, every stored bucket has [0 <= tokens <= capacity]. *)
Theorem tokens_within_capacity (r : Q) (burst : Z) (calls : list (string * Q))
    (client_id : string) :
  (0 < r)%Q -> (0 < burst)%Z ->
  Sorted Qle (map snd calls) ->
  exists lim, __init__ r burst = Ok lim /\
    forall b, _buckets (run lim calls).2 !! client_id = Some b ->
      (0 <= tokens b)%Q /\ (tokens b <= capacity lim)%Q.
Proof.
  intros Hr Hb _.
  exists {| rate := r; capacity := inject_Z burst; _buckets := ∅ |}.
  split.
  - unfold __init__.
    destruct (Qle_bool r 0) eqn:E1.
    + apply Qle_bool_iff in E1. lra.
    + destruct (burst <=? 0)%Z eqn:E2; [apply Z.leb_le in E2; lia|reflexivity].
  - intros b Hl.
    set (lim := {| rate := r; capacity := inject_Z burst; _buckets := ∅ |}) in *.
    assert (Hcap : (0 <= capacity lim)%Q).
    { simpl. change 0%Q with (inject_Z 0). rewrite <- Zle_Qle. lia. }
    assert (Hinv : in_range (run lim calls).2).
    { apply run_in_range; [simpl; lra|exact Hcap|].
      intros c b0 H0. simpl in H0. rewrite lookup_empty in H0. discriminate. }
    destruct (Hinv _ _ Hl) as [H1 H2]. rewrite run_capacity in H2. auto.
Qed.

Lemma tokens_within_capacity_witness :
  exists lim, __init__ 3 6 = Ok lim /\
    forall b, _buckets (run lim [("a", 0%Q); ("b", 1 # 10); ("a", 1 # 5); ("a", 2%Q)]).2 !! "a"
              = Some b ->
      (0 <= tokens b)%Q /\ (tokens b <= capacity lim)%Q.
Proof.
  apply (tokens_within_capacity 3 6 [("a", 0%Q); ("b", 1 # 10); ("a", 1 # 5); ("a", 2%Q)] "a").
  - reflexivity.
  - reflexivity.
  - repeat constructor; vm_compute; discriminate.
Defined.

(** *** First request of an unseen identity *)

(** C10.  For a limiter built with [rate > 0] and an integer [burst >= 1],
    in any state reached from the constructor the first call of an
    identity that has no bucket is admitted; the bucket created for it
    starts from [capacity = burst] and keeps [burst - 1] tokens. *)
Theorem first_call_admitted (r : Q) (burst : Z) (calls : list (string * Q))
    (client_id : string) (now : Q) :
  (0 < r)%Q -> (1 <= burst)%Z ->
  exists lim, __init__ r burst = Ok lim /\ capacity lim = inject_Z burst /\
    (_buckets (run lim calls).2 !! client_id = None ->
     (allow (run lim calls).2 client_id now).1 = true /\
     exists b, _buckets (allow (run lim calls).2 client_id now).2 !! client_id = Some b /\
               (tokens b == inject_Z burst - 1)%Q /\ timestamp b = now).
Proof.
  intros Hr Hb.
  exists {| rate := r; capacity := inject_Z burst; _buckets := ∅ |}.
  split; [|split; [reflexivity|]].
  - unfold __init__.
    destruct (Qle_bool r 0) eqn:E1.
    + apply Qle_bool_iff in E1. lra.
    + destruct (burst <=? 0)%Z eqn:E2; [apply Z.leb_le in E2; lia|reflexivity].
  - set (lim := {| rate := r; capacity := inject_Z burst; _buckets := ∅ |}).
    intros Hn.
    set (s := (run lim calls).2) in *.
    assert (Hrs : rate s = r) by (subst s; now rewrite run_rate).
    assert (Hcs : capacity s = inject_Z burst) by (subst s; now rewrite run_capacity).
    assert (H1 : (1 <= inject_Z burst)%Q).
    { change 1%Q with (inject_Z 1). rewrite <- Zle_Qle. exact Hb. }
    pose proof (allow_rule s client_id now) as Hrule. cbv zeta in Hrule.
    assert (Hbk : bucket_of s client_id now = {| tokens := capacity s; timestamp := now |})
      by (unfold bucket_of; now rewrite Hn).
    rewrite Hbk in Hrule.
    assert (Hre : (refill_spec s {| tokens := capacity s; timestamp := now |} now
                   == inject_Z burst)%Q).
    { unfold refill_spec. simpl. rewrite Hrs, Hcs.
      assert (E : (Qmax 0 (now - now) == 0)%Q) by (apply Q.max_l; lra).
      rewrite E. apply Q.min_l. lra. }
    destruct Hrule as [_ Hadm].
    destruct Hadm as [Ha (b & Hl & Hk & Ht)]; [rewrite Hre; exact H1|].
    split; [exact Ha|]. exists b. rewrite Hre in Hk. auto.
Qed.

Lemma first_call_admitted_witness :
  exists lim, __init__ (1 # 100) 1 = Ok lim /\ capacity lim = inject_Z 1 /\
    (_buckets (run lim [("a", 0%Q); ("a", 0%Q)]).2 !! "b" = None ->
     (allow (run lim [("a", 0%Q); ("a", 0%Q)]).2 "b" 0).1 = true /\
     exists b, _buckets (allow (run lim [("a", 0%Q); ("a", 0%Q)]).2 "b" 0).2 !! "b" = Some b /\
               (tokens b == inject_Z 1 - 1)%Q /\ timestamp b = 0%Q).
Proof.
  apply (first_call_admitted (1 # 100) 1 [("a", 0%Q); ("a", 0%Q)] "b" 0).
  - reflexivity.
  - lia.
Defined.

(** *** Isolation of buckets *)

Lemma answers_for_cons (who : string) (self : t) (c : string) (n : Q)
    (rest : list (string * Q)) :
  answers_for who self ((c, n) :: rest)
  = if decide (c = who)
    then (allow self c n).1 :: answers_for who (allow self c n).2 rest
    else answers_for who (allow self c n).2 rest.
Proof. simpl. now destruct (allow self c n). Qed.

Lemma answers_for_shadow (who : string) (s1 s2 : t) (calls : list (string * Q)) :
  rate s1 = rate s2 -> capacity s1 = capacity s2 ->
  _buckets s1 !! who = _buckets s2 !! who ->
  answers_for who s1 calls
  = answers_for who s2 (filter (fun c => c.1 = who) calls).
Proof.
  revert s1 s2. induction calls as [|[c n] calls IH]; intros s1 s2 Hr Hc Hb; [reflexivity|].
  rewrite answers_for_cons.
  pose proof (allow_rate s1 c n) as Hr1. pose proof (allow_capacity s1 c n) as Hc1.
  destruct (decide (c = who)) as [->|Hne].
  - rewrite filter_cons_True by reflexivity.
    rewrite answers_for_cons, decide_True by reflexivity.
    pose proof (allow_rate s2 who n) as Hr2. pose proof (allow_capacity s2 who n) as Hc2.
    destruct (allow_local s1 s2 who n Hr Hc Hb) as [Ha Hl].
    rewrite Ha. f_equal. apply IH; congruence.
  - rewrite filter_cons_False by (simpl; congruence).
    pose proof (allow_frame s1 c who n Hne) as Hf.
    apply IH; congruence.
Qed.

(** [answers_for] reads off [run] the answers given to one identity. *)
Lemma answers_for_run (who : string) (self : t) (calls : list (string * Q)) :
  answers_for who self calls
  = (filter (fun x => x.1.1 = who) (zip calls (run self calls).1)).*2.
Proof.
  revert self. induction calls as [|[c n] calls IH]; intros self; [reflexivity|].
  rewrite run_cons, answers_for_cons. cbn [fst snd zip zip_with].
  specialize (IH (allow self c n).2).
  destruct (decide (c = who)) as [->|Hne].
  - rewrite filter_cons_True by reflexivity. rewrite fmap_cons. simpl. now rewrite IH.
  - rewrite filter_cons_False by (simpl; congruence). exact IH.
Qed.

(** C7.  Two runs of the limiter that start from states with the same
    constants and the same bucket for [B], and whose histories differ only
    in the calls of another identity [A] (how many, when, and hence with
    what answers), give [B] the same answers. *)
Theorem bucket_isolation (A B : string) (s1 s2 : t) (calls1 calls2 : list (string * Q)) :
  A ≠ B ->
  rate s1 = rate s2 -> capacity s1 = capacity s2 ->
  _buckets s1 !! B = _buckets s2 !! B ->
  filter (fun c => c.1 ≠ A) calls1 = filter (fun c => c.1 ≠ A) calls2 ->
  answers_for B s1 calls1 = answers_for B s2 calls2.
Proof.
  intros Hne Hr Hc Hb Hf.
  rewrite (answers_for_shadow B s1 s2 calls1 Hr Hc Hb).
  rewrite (answers_for_shadow B s2 s2 calls2 eq_refl eq_refl eq_refl).
  f_equal.
  assert (Hproj : forall l : list (string * Q),
            filter (fun c => c.1 = B) l
            = filter (fun c => c.1 = B) (filter (fun c => c.1 ≠ A) l)).
  { intros l. induction l as [|[c n] l IH]; [reflexivity|].
    destruct (decide (c = B)) as [->|Hcb].
    - rewrite (filter_cons_True (fun c => c.1 ≠ A)) by (simpl; congruence).
      rewrite !filter_cons_True by reflexivity. now rewrite IH.
    - rewrite filter_cons_False by (simpl; congruence).
      destruct (decide (c = A)) as [->|Hca].
      + rewrite filter_cons_False by (simpl; intros H; now apply H). exact IH.
      + rewrite (filter_cons_True (fun c => c.1 ≠ A)) by (simpl; congruence).
        rewrite filter_cons_False by (simpl; congruence). exact IH. }
  rewrite (Hproj calls1), (Hproj calls2). now rewrite Hf.
Qed.

Lemma bucket_isolation_witness :
  answers_for "B" {| rate := 3; capacity := inject_Z 2; _buckets := ∅ |}
    [("A", 0%Q); ("A", 0%Q); ("B", 0%Q); ("A", 0%Q); ("A", 0%Q); ("B", 1 # 10); ("B", 1 # 10)]
  = answers_for "B" {| rate := 3; capacity := inject_Z 2; _buckets := ∅ |}
    [("B", 0%Q); ("B", 1 # 10); ("A", 5%Q); ("B", 1 # 10)].
Proof.
  apply (bucket_isolation "A" "B"); try reflexivity.
  intros H. discriminate H.
Defined.

End RateLimiterFacts.

(** ** The metrics window *)

Section MetricsFacts.
Import Metrics.

Lemma insert_stable_length (x : Q) (l : list Q) :
  length (insert_stable x l) = S (length l).
Proof.
  induction l as [|y l IH]; simpl; [reflexivity|].
  destruct (Qltb y x); simpl; [now rewrite IH|reflexivity].
Qed.

Lemma sorted_length (l : list Q) : length (sorted l) = length l.
Proof.
  induction l as [|x l IH]; simpl; [reflexivity|].
  now rewrite insert_stable_length, IH.
Qed.

Lemma insert_stable_perm (x : Q) (l : list Q) :
  Permutation (x :: l) (insert_stable x l).
Proof.
  induction l as [|y l IH]; simpl; [reflexivity|].
  destruct (Qltb y x); [|reflexivity].
  rewrite perm_swap. now apply perm_skip.
Qed.

Lemma sorted_perm (l : list Q) : Permutation l (sorted l).
Proof.
  induction l as [|x l IH]; simpl; [constructor|].
  rewrite <- insert_stable_perm. now apply perm_skip.
Qed.

Lemma insert_stable_hd (x a : Q) (l : list Q) :
  (a <= x)%Q -> HdRel Qle a l -> HdRel Qle a (insert_stable x l).
Proof.
  intros Hax H. destruct l as [|y l]; simpl.
  - now constructor.
  - destruct (Qltb y x); constructor; [now inversion H|exact Hax].
Qed.

Lemma insert_stable_sorted (x : Q) (l : list Q) :
  Sorted Qle l -> Sorted Qle (insert_stable x l).
Proof.
  induction 1 as [|y l Hs IH Hhd]; simpl.
  - repeat constructor.
  - destruct (Qltb y x) eqn:E.
    + apply Qltb_true in E. constructor; [exact IH|].
      apply insert_stable_hd; [now apply Qlt_le_weak|exact Hhd].
    + apply Qltb_false in E. constructor; [now constructor|now constructor].
Qed.

Lemma sorted_sorted (l : list Q) : Sorted Qle (sorted l).
Proof.
  induction l as [|x l IH]; simpl; [constructor|now apply insert_stable_sorted].
Qed.

Lemma py_getitem_in_range {A : Type} (l : list A) (i : Z) (d : A) :
  (0 <= i < Z.of_nat (length l))%Z ->
  py_getitem l i = Ok (nth (Z.to_nat i) l d).
Proof.
  intros [H0 H1]. unfold py_getitem.
  destruct (i <? 0)%Z eqn:E; [apply Z.ltb_lt in E; lia|]. rewrite E.
  destruct (l !! Z.to_nat i) as [x|] eqn:El.
  - f_equal. symmetry. apply nth_lookup_Some with (d := d) in El. exact El.
  - apply lookup_ge_None in El. lia.
Qed.

(** For a fraction [p] of a non-empty window of [n] items, the position
    [k = (n-1) * p] and its floor and ceiling stay inside the window. *)
Lemma position_in_range (n : nat) (p : Q) :
  (0 < n)%nat -> (0 <= p)%Q -> (p <= 1)%Q ->
  let k := (inject_Z (Z.of_nat n - 1) * p)%Q in
  (0 <= k)%Q /\
  (0 <= Qfloor k)%Z /\ (Qfloor k <= Qceiling k)%Z /\ (Qceiling k < Z.of_nat n)%Z.
Proof.
  intros Hn H0 H1 k.
  assert (Hm : (0 <= inject_Z (Z.of_nat n - 1))%Q).
  { change 0%Q with (inject_Z 0). rewrite <- Zle_Qle. lia. }
  assert (Hk0 : (0 <= k)%Q) by (apply Qmult_le_0_compat; assumption).
  assert (Hk1 : (k <= inject_Z (Z.of_nat n - 1))%Q).
  { unfold k. rewrite <- (Qmult_1_r (inject_Z (Z.of_nat n - 1))) at 2.
    rewrite !(Qmult_comm (inject_Z (Z.of_nat n - 1))).
    apply Qmult_le_compat_r; assumption. }
  split; [exact Hk0|]. split; [|split].
  - change 0%Z with (Qfloor 0). now apply Qfloor_resp_le.
  - rewrite Zle_Qle. eapply Qle_trans; [apply Qfloor_le|apply Qle_ceiling].
  - apply Qceiling_resp_le in Hk1. rewrite Qceiling_Z in Hk1. lia.
Qed.

Lemma percentile_refines (window : list Q) (p : Q) :
  (0 <= p)%Q -> (p <= 1)%Q ->
  _percentile window p = Ok (percentile_spec window p).
Proof.
  intros H0 H1. destruct window as [|x w]; [reflexivity|].
  unfold _percentile, percentile_spec.
  set (ordered := sorted (x :: w)).
  assert (Hlen : (0 < length ordered)%nat) by (subst ordered; rewrite sorted_length; simpl; lia).
  destruct (position_in_range (length ordered) p Hlen H0 H1) as (Hk & Hf & Hfc & Hc).
  cbv zeta in *.
  set (k := (inject_Z (Z.of_nat (length ordered) - 1) * p)%Q) in *.
  destruct (Qfloor k =? Qceiling k)%Z eqn:E.
  - assert (Hi : py_int_of_float k = Qfloor k).
    { unfold py_int_of_float.
      destruct (Qltb k 0) eqn:Ek; [apply Qltb_true in Ek; lra|reflexivity]. }
    rewrite Hi. apply py_getitem_in_range. lia.
  - rewrite (py_getitem_in_range ordered (Qfloor k) 0%Q) by lia.
    rewrite (py_getitem_in_range ordered (Qceiling k) 0%Q) by lia.
    reflexivity.
Qed.

(** *** Counters and the bounded window *)

Lemma record_all_app (m : t) (xs ys : list Q) :
  record_all m (xs ++ ys) = record_all (record_all m xs) ys.
Proof. unfold record_all. apply foldl_app. Qed.

(** [requests_total] counts every call of [record]; the window does not
    bound it. *)
Lemma record_all_requests_total (m : t) (latencies : list Q) :
  _requests_total (record_all m latencies)
  = (_requests_total m + Z.of_nat (length latencies))%Z.
Proof.
  revert m. induction latencies as [|x xs IH]; intros m.
  - simpl. lia.
  - change (record_all m (x :: xs)) with (record_all (record m x 0 0) xs).
    rewrite IH. simpl. lia.
Qed.

Lemma record_all_maxlen (m : t) (latencies : list Q) :
  maxlen (record_all m latencies) = maxlen m.
Proof.
  revert m. induction latencies as [|x xs IH]; intros m; [reflexivity|].
  change (record_all m (x :: xs)) with (record_all (record m x 0 0) xs).
  now rewrite IH.
Qed.

Lemma deque_append_length (n : nat) (d : list Q) (x : Q) :
  (length d <= n)%nat -> (length (deque_append n d x) <= n)%nat.
Proof.
  intros Hd. unfold deque_append. rewrite length_drop, length_app. simpl. lia.
Qed.

(** The window never holds more than [maxlen] samples. *)
Lemma record_all_window_bounded (m : t) (latencies : list Q) :
  (length (_latencies m) <= maxlen m)%nat ->
  (length (_latencies (record_all m latencies)) <= maxlen m)%nat.
Proof.
  revert m. induction latencies as [|x xs IH]; intros m Hm; [exact Hm|].
  change (record_all m (x :: xs)) with (record_all (record m x 0 0) xs).
  change (maxlen m) with (maxlen (record m x 0 0)).
  apply IH. simpl. now apply deque_append_length.
Qed.

Lemma deque_append_recent (n : nat) (l : list Q) (x : Q) :
  deque_append n (drop (length l - n) l) x = drop (length (l ++ [x]) - n) (l ++ [x]).
Proof.
  unfold deque_append.
  destruct (decide (length l <= n)%nat) as [Hle|Hgt].
  - replace (length l - n)%nat with 0%nat by lia. reflexivity.
  - rewrite !length_app, length_drop. simpl.
    replace (length l - (length l - n) + 1 - n)%nat with 1%nat by lia.
    replace (length l + 1 - n)%nat with ((length l - n) + 1)%nat by lia.
    rewrite <- drop_drop. f_equal.
    rewrite drop_app_le by lia. reflexivity.
Qed.

(** The window holds the most recent samples: after recording into a
    window that respects its bound, it holds the last [maxlen] items of
    the old samples followed by the new ones (clamped at zero). *)
Lemma record_all_window (m : t) (latencies : list Q) :
  (length (_latencies m) <= maxlen m)%nat ->
  _latencies (record_all m latencies)
  = drop (length (_latencies m ++ map (py_max 0) latencies) - maxlen m)
         (_latencies m ++ map (py_max 0) latencies).
Proof.
  intros Hm. induction latencies as [|x xs IH] using rev_ind.
  - simpl. rewrite app_nil_r.
    replace (length (_latencies m) - maxlen m)%nat with 0%nat by lia. reflexivity.
  - rewrite record_all_app. simpl. rewrite record_all_maxlen, IH.
    rewrite map_app, app_assoc. simpl. apply deque_append_recent.
Qed.

(** Window eviction: [capacity + 1] samples recorded into an empty window
    leave the [capacity] most recent ones. *)
Lemma window_eviction (window_size : nat) (first : Q) (others : list Q) :
  length others = window_size ->
  _latencies (record_all (__init__ window_size) (first :: others))
  = map (py_max 0) others.
Proof.
  intros Hl. rewrite record_all_window by (simpl; lia).
  simpl. rewrite length_map, Hl.
  replace (S window_size - window_size)%nat with 1%nat by lia. reflexivity.
Qed.

(** When the position is not a whole number its ceiling is the floor plus
    one, and the two interpolation weights are positive and add up to 1. *)
Lemma interpolation_weights (k : Q) :
  Qfloor k <> Qceiling k ->
  Qceiling k = (Qfloor k + 1)%Z /\
  (0 < inject_Z (Qceiling k) - k)%Q /\ (0 < k - inject_Z (Qfloor k))%Q /\
  ((inject_Z (Qceiling k) - k) + (k - inject_Z (Qfloor k)) == 1)%Q.
Proof.
  intros Hne.
  pose proof (Qfloor_le k) as H1. pose proof (Qlt_floor k) as H2.
  pose proof (Qle_ceiling k) as H3. pose proof (Qceiling_lt k) as H4.
  assert (Hfc : (Qfloor k <= Qceiling k)%Z).
  { rewrite Zle_Qle. eapply Qle_trans; eassumption. }
  assert (Hcf : (Qceiling k - 1 < Qfloor k + 1)%Z).
  { rewrite Zlt_Qlt. eapply Qlt_trans; eassumption. }
  assert (E : Qceiling k = (Qfloor k + 1)%Z) by lia.
  split; [exact E|].
  assert (Hf : (inject_Z (Qfloor k) < k)%Q).
  { replace (Qfloor k) with (Qceiling k - 1)%Z by lia. exact H4. }
  assert (Hc : (k < inject_Z (Qceiling k))%Q) by (rewrite E; exact H2).
  split; [lra|]. split; [lra|].
  rewrite E, inject_Z_plus. change (inject_Z 1) with 1%Q. lra.
Qed.

Lemma snapshot_total (m : t) :
  snapshot m = Ok {| requests_total := _requests_total m;
                     tokens_prompt_total := _prompt_tokens m;
                     tokens_completion_total := _completion_tokens m;
                     latency_ms_p50 := percentile_spec (_latencies m) 0.5;
                     latency_ms_p95 := percentile_spec (_latencies m) 0.95 |}.
Proof.
  unfold snapshot.
  rewrite (percentile_refines (_latencies m) 0.5) by (vm_compute; discriminate).
  rewrite (percentile_refines (_latencies m) 0.95) by (vm_compute; discriminate).
  reflexivity.
Qed.

(** C3.  [_percentile] sorts the window ([sorted] returns an ascending
    permutation of it) and, for a fraction [0 <= p <= 1], returns the value
    of the specification's formula ([percentile_spec]: position
    [k = (n-1)*p], the item at [k] when [floor k = ceil k], else
    [values[f]*(c-k) + values[c]*(k-f)], where then [c = f + 1] and the two
    weights are positive and add up to 1); [snapshot] reports this value at
    0.5 and 0.95.  For the window [10, 20, 30, 40] the p50 is 25 and the p95
    is 38.5; for an empty window every percentile is 0. *)
Theorem percentile_interpolation (m : t) (p : Q) :
  (0 <= p)%Q -> (p <= 1)%Q ->
  let window := _latencies m in
  let k := (inject_Z (Z.of_nat (length window) - 1) * p)%Q in
  (Sorted Qle (sorted window) /\ Permutation window (sorted window)) /\
  _percentile window p = Ok (percentile_spec window p) /\
  (Qfloor k <> Qceiling k ->
     Qceiling k = (Qfloor k + 1)%Z /\
     (0 < inject_Z (Qceiling k) - k)%Q /\ (0 < k - inject_Z (Qfloor k))%Q /\
     ((inject_Z (Qceiling k) - k) + (k - inject_Z (Qfloor k)) == 1)%Q) /\
  (exists s, snapshot m = Ok s /\
             latency_ms_p50 s = percentile_spec window 0.5 /\
             latency_ms_p95 s = percentile_spec window 0.95) /\
  (window = [10; 20; 30; 40]%Q ->
     exists s, snapshot m = Ok s /\
               (latency_ms_p50 s == 25)%Q /\ (latency_ms_p95 s == 38.5)%Q) /\
  (window = [] ->
     (forall q, _percentile window q = Ok 0%Q) /\
     exists s, snapshot m = Ok s /\
               (latency_ms_p50 s == 0)%Q /\ (latency_ms_p95 s == 0)%Q).
Proof.
  intros H0 H1 window k.
  split; [split; [apply sorted_sorted|apply sorted_perm]|].
  split; [now apply percentile_refines|].
  split; [apply interpolation_weights|].
  split; [|split].
  - eexists. split; [apply snapshot_total|]. split; reflexivity.
  - intros Hw. eexists. split; [apply snapshot_total|].
    fold window. rewrite Hw. simpl. split; vm_compute; reflexivity.
  - intros Hw. split.
    + intros q. rewrite Hw. reflexivity.
    + eexists. split; [apply snapshot_total|].
      fold window. rewrite Hw. simpl. split; reflexivity.
Qed.

Lemma percentile_interpolation_witness :
  exists s, snapshot (record_all metrics [40; 10; 30; 20]%Q) = Ok s /\
            latency_ms_p50 s = percentile_spec [40; 10; 30; 20]%Q 0.5 /\
            latency_ms_p95 s = percentile_spec [40; 10; 30; 20]%Q 0.95.
Proof.
  assert (H0 : (0 <= 0.95)%Q) by (vm_compute; discriminate).
  assert (H1 : (0.95 <= 1)%Q) by (vm_compute; discriminate).
  exact (proj1 (proj2 (proj2 (proj2
           (percentile_interpolation (record_all metrics [40; 10; 30; 20]%Q) 0.95 H0 H1))))).
Defined.

(** The two examples in binary64 arithmetic, as the interpreter computes
    them: the position of the p95 in a window of four is the double
    [3 * 0.95 = 2.8499999999999996], strictly between 2 and 3, and the
    interpolation [30 * (3 - k) + 40 * (k - 2)] rounds to exactly 38.5; the
    position of the p50 is exactly 1.5 and the interpolation gives 25. *)
Remark examples_in_binary64 :
  let k95 := (3 * 0x1.e666666666666p-1)%float in
  let k50 := (3 * 0.5)%float in
  (PrimFloat.ltb 2 k95 = true /\ PrimFloat.ltb k95 3 = true /\
   (30 * (3 - k95) + 40 * (k95 - 2))%float = 38.5%float) /\
  (k50 = 1.5%float /\ (20 * (2 - k50) + 30 * (k50 - 1))%float = 25%float).
Proof. vm_compute. repeat split; reflexivity. Qed.

End MetricsFacts.

(** ** The streaming handlers *)

Section StreamingFacts.
Context `{Builtins}.
Import Schemas Main.

Lemma add_trace_nil (w : World) : add_trace w [] = w.
Proof. destruct w. unfold add_trace. simpl. now rewrite app_nil_r. Qed.

Lemma add_trace_app (w : World) (a b : list action) :
  add_trace (add_trace w a) b = add_trace w (a ++ b).
Proof. unfold add_trace. simpl. now rewrite app_assoc. Qed.

Lemma connected_add_trace (w : World) (a : list action) :
  connected w -> connected (add_trace w a).
Proof. intros H0. exact H0. Qed.

Lemma connected_set_metrics (w : World) (m : Metrics.t) :
  connected w -> connected (set_metrics w m).
Proof. intros H0. exact H0. Qed.

Lemma send_json_connected (w : World) (e : ChatEvent) :
  connected w -> send_json e w = (Ok tt, add_trace w [Send e]).
Proof. intros [_ Hp]. unfold send_json. now rewrite Hp. Qed.

Lemma send_ws_error_connected (w : World) (message : string) (details : option string) :
  connected w ->
  _send_ws_error message details w = (Ok tt, add_trace w [Send (Error message details)]).
Proof.
  intros Hc. unfold _send_ws_error. destruct Hc as [Hs Hp]. rewrite Hs.
  apply send_json_connected. now split.
Qed.

(** The state machine never ends with a client disconnect. *)
Lemma usage_not_disconnect (chunk : dict) :
  _usage_from_chunk chunk <> Raise WebSocketDisconnect.
Proof.
  unfold _usage_from_chunk.
  assert (Hint : forall v, py_int v <> Raise WebSocketDisconnect).
  { intros v. destruct v; simpl; try discriminate.
    destruct (int_of_str s); discriminate. }
  destruct (py_int (py_or (get chunk "prompt_eval_count") (VInt 0))) as [p|e] eqn:E1; simpl.
  - destruct (py_int (py_or (get chunk "eval_count") (VInt 0))) as [c|e] eqn:E2; simpl.
    + discriminate.
    + intros [= ->]. now apply (Hint _ E2).
  - intros [= ->]. now apply (Hint _ E1).
Qed.

Lemma translate_not_disconnect (chunks : list dict) (failure : option (string * Z))
    (collected : list string) :
  (translate chunks failure collected).2 <> Crashed WebSocketDisconnect.
Proof.
  revert collected. induction chunks as [|chunk rest IH]; intros collected; simpl.
  - destruct failure as [[m c]|]; discriminate.
  - destruct (truthy (get chunk "error")); [discriminate|].
    destruct (truthy (get chunk "done")); simpl; [|apply IH].
    pose proof (usage_not_disconnect chunk) as Hu.
    destruct (_usage_from_chunk chunk); [discriminate|]. congruence.
Qed.

(** The loop of the WebSocket turn follows the state machine. *)
Lemma ws_consume_run (started finished : Q) (chunks : list dict)
    (failure : option (string * Z)) (collected : list string) (w : World) :
  connected w ->
  ws_consume started finished chunks failure collected w =
    let r := translate chunks failure collected in
    let lat := elapsed_ms started finished in
    let w1 := add_trace w (map Send (map Token r.1)) in
    match r.2 with
    | Failed message => (Ok None, add_trace w1 [Send (Error message None)])
    | Completed coll u =>
        (Ok None,
         add_trace (set_metrics w1 (Metrics.record (metrics w) (inject_Z lat)
                                      (prompt_tokens u) (completion_tokens u)))
           [Send (Done (String.concat "" coll) u lat)])
    | Truncated coll => (Ok (Some coll), w1)
    | Crashed e => (Raise e, w1)
    end.
Proof.
  revert collected w. induction chunks as [|chunk rest IH]; intros collected w Hc.
  - simpl. destruct failure as [[m c]|]; simpl; now rewrite add_trace_nil.
  - cbn [ws_consume translate].
    destruct (truthy (get chunk "error")) eqn:Eerr.
    + unfold bindM. rewrite send_ws_error_connected by assumption.
      cbn. now rewrite add_trace_nil.
    + destruct (Deps.nonempty (_token_from_chunk chunk)) eqn:Etok.
      * unfold bindM at 1 2. rewrite send_json_connected by assumption.
        cbn [ret].
        assert (Hc1 : connected (add_trace w [Send (Token (_token_from_chunk chunk))]))
          by now apply connected_add_trace.
        destruct (truthy (get chunk "done")) eqn:Edone.
        -- unfold bindM, lift, record_sample.
           destruct (_usage_from_chunk chunk) as [u|e]; cbn [fst snd map].
           ++ rewrite send_json_connected by now apply connected_set_metrics.
              reflexivity.
           ++ reflexivity.
        -- rewrite (IH _ _ Hc1). cbn [fst snd map app].
           rewrite add_trace_app.
           destruct (translate rest failure (collected ++ [_token_from_chunk chunk])).2;
             reflexivity.
      * unfold bindM at 1. cbn [ret].
        destruct (truthy (get chunk "done")) eqn:Edone.
        -- unfold bindM, lift, record_sample. rewrite app_nil_r.
           destruct (_usage_from_chunk chunk) as [u|e]; cbn [fst snd map].
           ++ rewrite add_trace_nil. rewrite send_json_connected by now apply connected_set_metrics.
              reflexivity.
           ++ now rewrite add_trace_nil.
        -- rewrite (IH _ _ Hc). rewrite app_nil_r. reflexivity.
Qed.

(** The loop of the SSE generator follows the state machine. *)
Lemma sse_consume_run (started finished : Q) (chunks : list dict)
    (failure : option (string * Z)) (collected : list string) (w : World) :
  sse_consume started finished chunks failure collected w =
    let r := translate chunks failure collected in
    let lat := elapsed_ms started finished in
    let w1 := add_trace w (map Yield (map Token r.1)) in
    match r.2 with
    | Failed message => (Raise (HTTPException 502 message), w1)
    | Completed coll u =>
        (Ok (true, coll),
         add_trace (set_metrics w1 (Metrics.record (metrics w) (inject_Z lat)
                                      (prompt_tokens u) (completion_tokens u)))
           [Yield (Done (String.concat "" coll) u lat)])
    | Truncated coll => (Ok (false, coll), w1)
    | Crashed e => (Raise e, w1)
    end.
Proof.
  revert collected w. induction chunks as [|chunk rest IH]; intros collected w.
  - simpl. destruct failure as [[m c]|]; simpl; now rewrite add_trace_nil.
  - cbn [sse_consume translate].
    destruct (truthy (get chunk "error")) eqn:Eerr.
    + cbn. now rewrite add_trace_nil.
    + destruct (Deps.nonempty (_token_from_chunk chunk)) eqn:Etok.
      * unfold bindM at 1 2. unfold emit at 1. cbn [ret].
        destruct (truthy (get chunk "done")) eqn:Edone.
        -- unfold bindM, lift, record_sample, emit.
           destruct (_usage_from_chunk chunk) as [u|e]; reflexivity.
        -- rewrite IH. cbn [fst snd map app].
           rewrite add_trace_app.
           destruct (translate rest failure (collected ++ [_token_from_chunk chunk])).2;
             reflexivity.
      * unfold bindM at 1. cbn [ret].
        destruct (truthy (get chunk "done")) eqn:Edone.
        -- unfold bindM, lift, record_sample, emit. rewrite app_nil_r.
           destruct (_usage_from_chunk chunk) as [u|e]; cbn [fst snd map];
             now rewrite add_trace_nil.
        -- rewrite IH. rewrite app_nil_r. reflexivity.
Qed.

(** One run of the SSE generator: what it yields, how it ends and what it
    records, in terms of the state machine. *)
Lemma sse_generator_run (model_name : string) (msgs : list ChatMessage)
    (options : Options) (env : TurnEnv) (w : World) :
  _sse_chat_generator model_name msgs options env w =
    let r := translate (chunks (backend env)) (failure (backend env)) [] in
    let lat := elapsed_ms (t_start env) (t_end env) in
    (sse_result r.2,
     {| limiter := limiter w;
        metrics := metrics_after (metrics w) lat r.2;
        websocket := websocket w;
        trace := trace w ++ StreamChat model_name msgs options
                           :: map Yield (map Token r.1 ++ sse_terminal lat r.2) |}).
Proof.
  unfold _sse_chat_generator. cbv zeta.
  unfold bindM at 1. unfold try_except. unfold bindM at 1. unfold emit at 1.
  rewrite sse_consume_run. cbv zeta.
  destruct (translate (chunks (backend env)) (failure (backend env)) []) as [toks out].
  cbn [fst snd].
  destruct out as [coll u|coll|message|e]; cbn [fst snd negb sse_result sse_terminal metrics_after].
  - unfold ret, add_trace, set_metrics. cbn. rewrite !map_app, <- !app_assoc. reflexivity.
  - unfold bindM, record_sample, emit, add_trace, set_metrics. cbn.
    rewrite !map_app, <- !app_assoc. reflexivity.
  - unfold raise, add_trace. cbn. rewrite app_nil_r, <- !app_assoc. reflexivity.
  - destruct e; unfold raise, add_trace; cbn; rewrite app_nil_r, <- !app_assoc; reflexivity.
Qed.

(** One turn on a socket whose peer stays connected: the frames it sends
    and what it records, in terms of the state machine. *)
Lemma ws_turn_run (settings : Settings) (chat_request : ChatRequest)
    (env : TurnEnv) (w : World) :
  connected w ->
  _handle_websocket_chat settings chat_request env w =
    let r := translate (chunks (backend env)) (failure (backend env)) [] in
    let lat := elapsed_ms (t_start env) (t_end env) in
    (Ok tt,
     {| limiter := limiter w;
        metrics := metrics_after (metrics w) lat r.2;
        websocket := websocket w;
        trace := trace w ++ StreamChat (model_or_default settings (model chat_request))
                              (messages chat_request) (_build_options chat_request)
                           :: map Send (map Token r.1 ++ [ws_terminal lat r.2]) |}).
Proof.
  intros Hc. unfold _handle_websocket_chat. cbv zeta.
  unfold try_except. unfold bindM at 1. unfold emit at 1.
  unfold bindM at 1.
  rewrite ws_consume_run by now apply connected_add_trace.
  cbv zeta.
  pose proof (translate_not_disconnect (chunks (backend env)) (failure (backend env)) []) as Hnd.
  destruct (translate (chunks (backend env)) (failure (backend env)) []) as [toks out].
  cbn [fst snd] in *.
  set (start := StreamChat _ _ _).
  assert (Hc1 : connected (add_trace (add_trace w [start]) (map Send (map Token toks))))
    by (now repeat apply connected_add_trace).
  destruct out as [coll u|coll|message|e]; cbn [ws_terminal metrics_after].
  - unfold ret, add_trace, set_metrics. cbn. rewrite !map_app, <- !app_assoc. reflexivity.
  - unfold bindM, record_sample.
    rewrite send_json_connected by now apply connected_set_metrics.
    unfold add_trace, set_metrics. cbn. rewrite !map_app, <- !app_assoc. reflexivity.
  - unfold ret, add_trace. cbn. rewrite !map_app, <- !app_assoc. reflexivity.
  - destruct e; try (exfalso; apply Hnd; reflexivity);
      rewrite send_ws_error_connected by exact Hc1;
      unfold add_trace; cbn; rewrite !map_app, <- !app_assoc; reflexivity.
Qed.

(** *** The state machine on particular streams *)

(** A stream of plain chunks that ends quietly is truncated, with every
    non-empty text collected. *)
Lemma translate_plain (chunks : list dict) (collected : list string) :
  Forall plain chunks ->
  translate chunks None collected
  = (tokens_of chunks, Truncated (collected ++ tokens_of chunks)).
Proof.
  intros Hp. revert collected.
  induction Hp as [|chunk rest [He Hd] _ IH]; intros collected.
  - simpl. now rewrite app_nil_r.
  - cbn [translate]. rewrite He, Hd. rewrite IH. cbn [fst snd].
    unfold tokens_of. cbn [map].
    destruct (Deps.nonempty (_token_from_chunk chunk)) eqn:Etok.
    + rewrite filter_cons_True by exact Etok. now rewrite <- app_assoc.
    + rewrite filter_cons_False by congruence. now rewrite app_nil_r.
Qed.

(** An error chunk after plain chunks fails the turn, whatever follows. *)
Lemma translate_error (pre post : list dict) (err : dict)
    (failure : option (string * Z)) (collected : list string) :
  Forall plain pre -> truthy (get err "error") = true ->
  translate (pre ++ err :: post) failure collected
  = (tokens_of pre, Failed (py_str (get err "error"))).
Proof.
  intros Hp He. revert collected.
  induction Hp as [|chunk rest [Hce Hcd] _ IH]; intros collected.
  - cbn [app translate]. now rewrite He.
  - cbn [app translate]. rewrite Hce, Hcd. rewrite IH. cbn [fst snd].
    unfold tokens_of. cbn [map].
    destruct (Deps.nonempty (_token_from_chunk chunk)) eqn:Etok.
    + now rewrite filter_cons_True by exact Etok.
    + now rewrite filter_cons_False by congruence.
Qed.

Lemma terminal_count_tokens (tokens : list string) :
  terminal_count (map Token tokens) = 0%nat.
Proof.
  unfold terminal_count. induction tokens as [|t ts IH]; [reflexivity|].
  cbn [map]. rewrite filter_cons_False by (simpl; discriminate). exact IH.
Qed.

Lemma terminal_count_app (a b : list ChatEvent) :
  terminal_count (a ++ b) = (terminal_count a + terminal_count b)%nat.
Proof. unfold terminal_count. now rewrite filter_app, length_app. Qed.

Lemma terminal_count_closed (tokens : list string) (last : ChatEvent) :
  is_terminal last = true ->
  terminal_count (map Token tokens ++ [last]) = 1%nat.
Proof.
  intros Hl. rewrite terminal_count_app, terminal_count_tokens.
  unfold terminal_count. now rewrite filter_cons_True by exact Hl.
Qed.

Lemma ws_terminal_is_terminal (lat : Z) (out : Outcome) :
  is_terminal (ws_terminal lat out) = true.
Proof. destruct out as [ | | |e]; try reflexivity. now destruct e. Qed.

Lemma events_of_sends (events : list ChatEvent) :
  events_of (map Send events) = events.
Proof. induction events as [|e es IH]; [reflexivity|]. simpl. now rewrite IH. Qed.

Lemma events_of_yields (events : list ChatEvent) :
  events_of (map Yield events) = events.
Proof. induction events as [|e es IH]; [reflexivity|]. simpl. now rewrite IH. Qed.

(** *** Exactly one terminal event *)


(** *** Silent truncation *)


(** *** In-stream errors *)

(** C9 (as amended).  When a chunk with an error indicator arrives after
    plain chunks, the handler stops consuming: whatever follows in the
    stream has no effect.  The WebSocket turn (on a socket whose peer stays
    connected) sends the [Token] frames of the chunks before it and then
    the terminal [Error] frame with the upstream message.  The SSE
    generator yields the [Token] blocks of the chunks before it and then
    raises an HTTP exception with status 502 whose detail is the upstream
    message; it yields no [Error] event.  In both, no metrics sample is
    recorded: the collector is left as it was. *)
Theorem error_chunk_ends_turn (settings : Settings) (chat_request : ChatRequest)
    (model_name : string) (msgs : list ChatMessage) (options : Options)
    (pre post : list dict) (err : dict) (fails : option (string * Z))
    (started finished : Q) (w : World) :
  Forall plain pre -> truthy (get err "error") = true -> connected w ->
  let env := {| backend := {| chunks := pre ++ err :: post; failure := fails |};
                t_start := started; t_end := finished |} in
  let message := py_str (get err "error") in
  _handle_websocket_chat settings chat_request env w
    = (Ok tt,
       {| limiter := limiter w; metrics := metrics w; websocket := websocket w;
          trace := trace w ++ StreamChat (model_or_default settings (model chat_request))
                                (messages chat_request) (_build_options chat_request)
                              :: map Send (map Token (tokens_of pre) ++ [Error message None]) |}) /\
  _sse_chat_generator model_name msgs options env w
    = (Raise (HTTPException 502 message),
       {| limiter := limiter w; metrics := metrics w; websocket := websocket w;
          trace := trace w ++ StreamChat model_name msgs options
                              :: map Yield (map Token (tokens_of pre)) |}).
Proof.
  intros Hp He Hc env message.
  rewrite (ws_turn_run settings chat_request env w Hc).
  rewrite sse_generator_run. cbv zeta.
  subst env. cbn [backend chunks failure t_start t_end].
  rewrite (translate_error pre post err fails [] Hp He).
  cbn [fst snd metrics_after ws_terminal sse_terminal sse_result].
  rewrite app_nil_r. split; reflexivity.
Qed.

End StreamingFacts.

(** ** Examples of the streaming handlers *)

Section StreamingExamples.
Import Schemas Main.
#[local] Existing Instance example_builtins.




Lemma error_chunk_ends_turn_witness :
  events_of (trace (_handle_websocket_chat default_settings hi_request
     (example_turn ([[("response", VStr "Hel")]]
                    ++ [("error", VStr "out of memory")]
                    :: [[("response", VStr "lo")]; [("done", VBool true)]]))
     serving_world).2)
  = [Token "Hel"; Error "out of memory" None] /\
  metrics (_handle_websocket_chat default_settings hi_request
     (example_turn ([[("response", VStr "Hel")]]
                    ++ [("error", VStr "out of memory")]
                    :: [[("response", VStr "lo")]; [("done", VBool true)]]))
     serving_world).2 = metrics serving_world.
Proof.
  assert (Hp : Forall plain [[("response", VStr "Hel")]]).
  { repeat constructor. }
  assert (Hc : connected serving_world) by (split; reflexivity).
  destruct (error_chunk_ends_turn default_settings hi_request "llama3"
              (messages hi_request) no_options
              [[("response", VStr "Hel")]] [[("response", VStr "lo")]; [("done", VBool true)]]
              [("error", VStr "out of memory")] None 0 (1 # 4) serving_world Hp eq_refl Hc)
    as [Hws _].
  unfold example_turn. rewrite Hws. split; reflexivity.
Defined.

(** C9 (as stated) fails for the SSE generator: the error chunk ends the
    generator with an exception, and no [Error] event is among the events
    it yielded. *)
Lemma error_chunk_ends_turn_counterexample :
  let run := _sse_chat_generator "llama3" (messages hi_request) no_options
               (example_turn [[("message", VDict [("content", VStr "Hi")])];
                              [("error", VStr "out of memory")];
                              [("done", VBool true)]])
               serving_world in
  run.1 = Raise (HTTPException 502 "out of memory") /\
  events_of (trace run.2) = [Token "Hi"] /\
  ~ In (Error "out of memory" None) (events_of (trace run.2)).
Proof.
  vm_compute. repeat split; try reflexivity.
  intros [Hf|[]]. discriminate Hf.
Qed.

(** Why the peer must stay connected: when it is gone, the first send
    raises [WebSocketDisconnect], the handler returns silently, and the turn
    has no terminal event and no metrics sample. *)
Example peer_gone_no_terminal :
  let w := set_websocket serving_world
             {| application_state := CONNECTED; peer_accepts := Some 0%nat |} in
  let r := _handle_websocket_chat default_settings hi_request
             (example_turn [[("response", VStr "Hel")]; [("done", VBool true)]]) w in
  r.1 = Ok tt /\
  events_of (trace r.2) = [] /\
  metrics r.2 = metrics w /\
  application_state (websocket r.2) = DISCONNECTED.
Proof. cbv zeta. repeat split; vm_compute; reflexivity. Qed.

End StreamingExamples.

(** ** Admission and the routes *)

Create HintDb quiet.

Section RouteFacts.
Context `{Builtins}.
Import Schemas Main.

Lemma quiet_ret {A : Type} (a : A) : quiet (ret a).
Proof. intros w. exists []. simpl. now rewrite app_nil_r. Qed.

Lemma quiet_raise {A : Type} (e : exn) : quiet (@raise A e).
Proof. intros w. exists []. simpl. now rewrite app_nil_r. Qed.

Lemma quiet_lift {A : Type} (r : result A) : quiet (lift r).
Proof. intros w. exists []. simpl. now rewrite app_nil_r. Qed.

Lemma quiet_bind {A B : Type} (m : M A) (k : A -> M B) :
  quiet m -> (forall a, quiet (k a)) -> quiet (bindM m k).
Proof.
  intros Hm Hk w. unfold bindM.
  destruct (Hm w) as (e1 & H1 & F1).
  destruct (m w) as [[a|e] w1]; simpl in *.
  - destruct (Hk a w1) as (e2 & H2 & F2).
    exists (e1 ++ e2). rewrite H2, H1, app_assoc. split; [reflexivity|].
    now apply Forall_app.
  - exists e1. now split.
Qed.

Lemma quiet_try {A : Type} (m : M A) (h : exn -> M A) :
  quiet m -> (forall e, quiet (h e)) -> quiet (try_except m h).
Proof.
  intros Hm Hh w. unfold try_except.
  destruct (Hm w) as (e1 & H1 & F1).
  destruct (m w) as [[a|e] w1]; simpl in *.
  - exists e1. now split.
  - destruct (Hh e w1) as (e2 & H2 & F2).
    exists (e1 ++ e2). rewrite H2, H1, app_assoc. split; [reflexivity|].
    now apply Forall_app.
Qed.

Lemma quiet_emit (a : action) : is_allow a = false -> quiet (emit a).
Proof. intros Ha w. exists [a]. split; [reflexivity|]. now repeat constructor. Qed.

Lemma quiet_record_sample (l p c : Z) : quiet (record_sample l p c).
Proof. intros w. exists []. simpl. now rewrite app_nil_r. Qed.

Lemma quiet_send_json (e : ChatEvent) : quiet (send_json e).
Proof.
  intros w. unfold send_json.
  destruct (peer_accepts (websocket w)) as [[|n]|].
  - exists []. simpl. now rewrite app_nil_r.
  - exists [Send e]. split; [reflexivity|]. now repeat constructor.
  - exists [Send e]. split; [reflexivity|]. now repeat constructor.
Qed.

Lemma quiet_send_ws_error (message : string) (details : option string) :
  quiet (_send_ws_error message details).
Proof.
  intros w. unfold _send_ws_error.
  destruct (application_state (websocket w)); try apply quiet_send_json;
    exists []; simpl; now rewrite app_nil_r.
Qed.

Lemma quiet_accept : quiet accept.
Proof. intros w. exists [Accept]. split; [reflexivity|]. now repeat constructor. Qed.

#[local] Hint Resolve quiet_ret quiet_raise quiet_lift quiet_record_sample
  quiet_send_json quiet_send_ws_error quiet_accept : quiet.

(** Peel the binds of a computation whose steps are all primitive. *)
Ltac quiet_binds :=
  repeat (apply quiet_bind; [solve [auto with quiet]|intros ?]);
  solve [auto with quiet].

Lemma quiet_ws_consume (started finished : Q) (stream : list dict)
    (fails : option (string * Z)) (collected : list string) :
  quiet (ws_consume started finished stream fails collected).
Proof.
  revert collected. induction stream as [|chunk rest IH]; intros collected; cbn [ws_consume].
  - destruct fails as [[m c]|]; auto with quiet.
  - destruct (truthy (get chunk "error")); [quiet_binds|].
    apply quiet_bind.
    + destruct (Deps.nonempty (_token_from_chunk chunk)); quiet_binds.
    + intros coll. destruct (truthy (get chunk "done")); [quiet_binds|apply IH].
Qed.

Lemma quiet_ws_turn (settings : Settings) (chat_request : ChatRequest) (env : TurnEnv) :
  quiet (_handle_websocket_chat settings chat_request env).
Proof.
  unfold _handle_websocket_chat. cbv zeta. apply quiet_try.
  - apply quiet_bind; [now apply quiet_emit|intros _].
    apply quiet_bind; [apply quiet_ws_consume|intros [coll|]]; quiet_binds.
  - intros e. destruct e; auto with quiet.
Qed.

Lemma quiet_ws_turns (settings : Settings) (inbound : list (Inbound * TurnEnv)) :
  quiet (ws_turns settings inbound).
Proof.
  induction inbound as [|[msg env] rest IH]; cbn [ws_turns]; [auto with quiet|].
  destruct msg as [|why|data]; [auto with quiet| |].
  - apply quiet_bind; [auto with quiet|intros _; exact IH].
  - destruct (validate (merged_payload data)) as [req|e].
    + apply quiet_bind; [apply quiet_ws_turn|intros _; exact IH].
    + destruct e; auto with quiet.
      apply quiet_bind; [auto with quiet|intros _; exact IH].
Qed.

Lemma quiet_sse_generator (model_name : string) (msgs : list ChatMessage)
    (options : Options) (env : TurnEnv) :
  quiet (_sse_chat_generator model_name msgs options env).
Proof.
  intros w. rewrite sse_generator_run. cbv zeta. cbn [snd trace].
  eexists. split; [reflexivity|].
  constructor; [reflexivity|].
  apply List.Forall_forall. intros a Ha. apply in_map_iff in Ha as (e & <- & _). reflexivity.
Qed.

Lemma quiet_chat_endpoint (settings : Settings) (payload : ChatRequest) (env : RequestEnv) :
  quiet (chat_endpoint settings payload env).
Proof.
  unfold chat_endpoint. cbv zeta. destruct (stream payload).
  - intros w.
    destruct (quiet_sse_generator (model_or_default settings (model payload))
                (messages payload) (_build_options payload) (turn env) w) as (ext & He & Fe).
    destruct (_sse_chat_generator _ _ _ _ w) as [[u|e] w1]; exists ext; now split.
  - apply quiet_bind; [now apply quiet_emit|intros _].
    apply quiet_bind.
    { destruct (chat_reply env) as [r|e]; [|destruct e]; auto with quiet. }
    intros response. quiet_binds.
Qed.

(** *** The admission dependencies *)

Lemma enforce_rate_limit_run (settings : Settings) (request : Deps.Peer) (now : Q) (w : World) :
  let client_id := Deps._client_identifier_from_headers
                     (Deps.headers request) (Deps.client_host request) in
  match (Deps.get_rate_limiter settings w).1 with
  | Raise e => Deps.enforce_rate_limit settings request now w = (Raise e, w)
  | Ok lim =>
      let a := RateLimiter.allow lim client_id now in
      Deps.enforce_rate_limit settings request now w
      = ((if a.1 then Ok tt else Raise (HTTPException 429 "Rate limit exceeded")),
         {| limiter := Some a.2; metrics := metrics w; websocket := websocket w;
            trace := trace w ++ [Allow client_id a.1] |})
  end.
Proof.
  intros client_id. unfold Deps.enforce_rate_limit, Deps.get_rate_limiter, bindM.
  destruct (limiter w) as [lim|] eqn:El; cbn [fst].
  - unfold Deps.limiter_allow. fold client_id.
    destruct (RateLimiter.allow lim client_id now) as [ans lim']. cbn.
    now destruct ans.
  - destruct (RateLimiter.__init__ (rate_limit_rps settings) (rate_limit_burst settings))
      as [lim|e]; cbn [fst]; [|reflexivity].
    unfold Deps.limiter_allow. fold client_id.
    destruct (RateLimiter.allow lim client_id now) as [ans lim']. cbn.
    now destruct ans.
Qed.

Lemma enforce_rate_limit_ws_run (settings : Settings) (handshake : Deps.Peer) (now : Q)
    (w : World) :
  let client_id := Deps._client_identifier_from_headers
                     (Deps.headers handshake) (Deps.client_host handshake) in
  match (Deps.get_rate_limiter settings w).1 with
  | Raise e => Deps.enforce_rate_limit_ws settings handshake now w = (Raise e, w)
  | Ok lim =>
      let a := RateLimiter.allow lim client_id now in
      Deps.enforce_rate_limit_ws settings handshake now w
      = ((if a.1 then Ok tt else Raise (WebSocketException 1008 "Rate limit exceeded")),
         {| limiter := Some a.2; metrics := metrics w; websocket := websocket w;
            trace := trace w ++ [Allow client_id a.1] |})
  end.
Proof.
  intros client_id. unfold Deps.enforce_rate_limit_ws, Deps.get_rate_limiter, bindM.
  destruct (limiter w) as [lim|] eqn:El; cbn [fst].
  - unfold Deps.limiter_allow. fold client_id.
    destruct (RateLimiter.allow lim client_id now) as [ans lim']. cbn.
    now destruct ans.
  - destruct (RateLimiter.__init__ (rate_limit_rps settings) (rate_limit_burst settings))
      as [lim|e]; cbn [fst]; [|reflexivity].
    unfold Deps.limiter_allow. fold client_id.
    destruct (RateLimiter.allow lim client_id now) as [ans lim']. cbn.
    now destruct ans.
Qed.

Lemma post_api_chat_unfold (settings : Settings) (request : Deps.Peer)
    (body : RawChatRequest) (env : RequestEnv) (w : World) :
  post_api_chat settings request body env w =
    match Deps.verify_api_key settings request with
    | Raise e => (Ok (exception_response e), w)
    | Ok _ =>
        match Deps.enforce_rate_limit settings request (admit_clock env) w with
        | (Raise e, w1) => (Ok (exception_response e), w1)
        | (Ok _, w1) =>
            match validate body with
            | Raise e => (Ok (exception_response e), w1)
            | Ok payload =>
                match chat_endpoint settings payload env w1 with
                | (Ok response, w2) => (Ok response, w2)
                | (Raise e, w2) => (Ok (exception_response e), w2)
                end
            end
        end
    end.
Proof.
  unfold post_api_chat, try_except, bindM, lift, ret.
  destruct (Deps.verify_api_key settings request) as [[]|e]; [|reflexivity].
  destruct (Deps.enforce_rate_limit settings request (admit_clock env) w) as [[[]|e] w1];
    [|reflexivity].
  destruct (validate body) as [payload|e]; [|reflexivity].
  now destruct (chat_endpoint settings payload env w1) as [[response|e] w2].
Qed.

Lemma post_api_chat_shape (settings : Settings) (request : Deps.Peer)
    (body : RawChatRequest) (env : RequestEnv) (w : World) :
  let r := post_api_chat settings request body env w in
  let client_id := Deps._client_identifier_from_headers
                     (Deps.headers request) (Deps.client_host request) in
  (exists response, r.1 = Ok response) /\
  trace_shape client_id (trace w) (trace r.2) /\
  (In (Allow client_id false) (drop (length (trace w)) (trace r.2)) ->
   r.1 = Ok (ErrorResponse 429 "Rate limit exceeded") /\
   trace r.2 = trace w ++ [Allow client_id false]).
Proof.
  intros r client_id. subst r. rewrite post_api_chat_unfold.
  assert (Hstop : forall response : Response,
            (exists r0, (Ok response, w).1 = Ok r0) /\
            trace_shape client_id (trace w) (trace (Ok response, w).2) /\
            (In (Allow client_id false)
                (drop (length (trace w)) (trace (Ok response, w).2)) ->
             (Ok response, w).1 = Ok (ErrorResponse 429 "Rate limit exceeded") /\
             trace (Ok response, w).2 = trace w ++ [Allow client_id false])).
  { intros response. cbn [fst snd]. split; [eexists; reflexivity|].
    split; [now left|]. intros Hin. exfalso. rewrite drop_all in Hin. inversion Hin. }
  destruct (Deps.verify_api_key settings request) as [[]|e]; [|apply Hstop].
  pose proof (enforce_rate_limit_run settings request (admit_clock env) w) as Hrun.
  cbv zeta in Hrun. fold client_id in Hrun.
  destruct (Deps.get_rate_limiter settings w).1 as [lim|e];
    rewrite Hrun; clear Hrun; [|apply Hstop].
  destruct (RateLimiter.allow lim client_id (admit_clock env)) as [ans lim']. cbn [fst snd].
  destruct ans.
  2:{ cbn. split; [eexists; reflexivity|].
      split; [right; left; reflexivity|]. intros _. split; reflexivity. }
  set (w1 := {| limiter := Some lim'; metrics := metrics w; websocket := websocket w;
                trace := trace w ++ [Allow client_id true] |}).
  assert (Hgo : forall (response : Response) (w2 : World) (ext : list action),
            trace w2 = trace w1 ++ ext -> Forall (fun a => is_allow a = false) ext ->
            (exists r0, (Ok response, w2).1 = Ok r0) /\
            trace_shape client_id (trace w) (trace (Ok response, w2).2) /\
            (In (Allow client_id false)
                (drop (length (trace w)) (trace (Ok response, w2).2)) ->
             (Ok response, w2).1 = Ok (ErrorResponse 429 "Rate limit exceeded") /\
             trace (Ok response, w2).2 = trace w ++ [Allow client_id false])).
  { intros response w2 ext He Fe. cbn [fst snd]. split; [eexists; reflexivity|].
    rewrite He. cbn [trace w1]. rewrite <- app_assoc. cbn [app].
    split; [right; right; exists ext; now split|].
    intros Hin. exfalso. rewrite drop_app_length in Hin.
    destruct Hin as [Hin|Hin]; [discriminate|].
    rewrite List.Forall_forall in Fe. specialize (Fe _ Hin). discriminate. }
  destruct (validate body) as [payload|e].
  2:{ apply (Hgo _ w1 []); [now rewrite app_nil_r|constructor]. }
  destruct (quiet_chat_endpoint settings payload env w1) as (ext & He & Fe).
  destruct (chat_endpoint settings payload env w1) as [[resp|e] w2]; cbn [fst snd] in He;
    now apply (Hgo _ w2 ext).
Qed.

Lemma websocket_chat_unfold (settings : Settings) (handshake : Deps.Peer) (now : Q)
    (inbound : list (Inbound * TurnEnv)) (w : World) :
  websocket_chat settings handshake now inbound w =
    match Deps.verify_api_key_ws settings handshake with
    | Raise e => (Raise e, w)
    | Ok _ =>
        match Deps.enforce_rate_limit_ws settings handshake now w with
        | (Raise e, w1) => (Raise e, w1)
        | (Ok _, w1) => (let! _ := accept in ws_turns settings inbound) w1
        end
    end.
Proof.
  unfold websocket_chat. unfold bindM at 1. unfold lift.
  destruct (Deps.verify_api_key_ws settings handshake) as [[]|e]; [|reflexivity].
  unfold bindM at 1.
  now destruct (Deps.enforce_rate_limit_ws settings handshake now w) as [[[]|e] w1].
Qed.

Lemma websocket_chat_shape (settings : Settings) (handshake : Deps.Peer) (now : Q)
    (inbound : list (Inbound * TurnEnv)) (w : World) :
  let r := websocket_chat settings handshake now inbound w in
  let client_id := Deps._client_identifier_from_headers
                     (Deps.headers handshake) (Deps.client_host handshake) in
  trace_shape client_id (trace w) (trace r.2) /\
  (In (Allow client_id false) (drop (length (trace w)) (trace r.2)) ->
   r.1 = Raise (WebSocketException 1008 "Rate limit exceeded") /\
   trace r.2 = trace w ++ [Allow client_id false]).
Proof.
  intros r client_id. subst r. rewrite websocket_chat_unfold.
  assert (Hstop : forall (res : result unit),
            trace_shape client_id (trace w) (trace (res, w).2) /\
            (In (Allow client_id false) (drop (length (trace w)) (trace (res, w).2)) ->
             (res, w).1 = Raise (WebSocketException 1008 "Rate limit exceeded") /\
             trace (res, w).2 = trace w ++ [Allow client_id false])).
  { intros res. cbn [fst snd]. split; [now left|].
    intros Hin. exfalso. rewrite drop_all in Hin. inversion Hin. }
  destruct (Deps.verify_api_key_ws settings handshake) as [[]|e]; [|apply Hstop].
  pose proof (enforce_rate_limit_ws_run settings handshake now w) as Hrun.
  cbv zeta in Hrun. fold client_id in Hrun.
  destruct (Deps.get_rate_limiter settings w).1 as [lim|e];
    rewrite Hrun; clear Hrun; [|apply Hstop].
  destruct (RateLimiter.allow lim client_id now) as [ans lim']. cbn [fst snd].
  destruct ans.
  2:{ cbn. split; [right; left; reflexivity|]. intros _. split; reflexivity. }
  set (w1 := {| limiter := Some lim'; metrics := metrics w; websocket := websocket w;
                trace := trace w ++ [Allow client_id true] |}).
  assert (Hq : quiet (let! _ := accept in ws_turns settings inbound)).
  { apply quiet_bind; [apply quiet_accept|intros _; apply quiet_ws_turns]. }
  destruct (Hq w1) as (ext & He & Fe).
  destruct ((let! _ := accept in ws_turns settings inbound) w1) as [res w2].
  cbn [fst snd] in *. rewrite He. cbn [trace w1]. rewrite <- app_assoc. cbn [app].
  split; [right; right; exists ext; now split|].
  intros Hin. exfalso. rewrite drop_app_length in Hin.
  destruct Hin as [Hin|Hin]; [discriminate|].
  rewrite List.Forall_forall in Fe. specialize (Fe _ Hin). discriminate.
Qed.

Lemma trace_shape_admitted_first (client_id : string) (after : list action) :
  trace_shape client_id [] after -> admitted_first client_id after.
Proof.
  intros [->|[->|(ext & -> & Fe)]] pre a post Heq Hb.
  - destruct pre; discriminate.
  - destruct pre as [|x [|y pre]]; try discriminate.
    cbn in Heq. injection Heq as <- _. discriminate.
  - destruct pre as [|x pre].
    + cbn in Heq. injection Heq as <- _. discriminate.
    + cbn in Heq. injection Heq as <- _. now left.
Qed.

(** *** Admission precedes the backend *)


(** *** Validation of the request body *)

Lemma validate_empty_messages (body : RawChatRequest) :
  raw_messages body = [] ->
  validate body = Raise (ValidationError "messages must contain at least one item").
Proof. intros Hm. unfold validate. rewrite Hm. reflexivity. Qed.

(** C5 (as amended).  A POST /api/chat request whose messages list is
    empty never reaches the backend: it makes no backend call, emits no
    event and records no metrics sample, and it is answered by an error
    response.  The route's dependencies run before the body is validated:
    when the API-key check passes and the limiter is available, the limiter
    is asked once for the derived identity and its bucket is updated; the
    request gets the validation failure (422) when it is admitted and the
    HTTP 429 response when it is not. *)
Theorem empty_messages_rejected (settings : Settings) (request : Deps.Peer)
    (body : RawChatRequest) (env : RequestEnv)
    (lim0 : option RateLimiter.t) (m0 : Metrics.t) (ws0 : WebSocket) :
  raw_messages body = [] ->
  let w := {| limiter := lim0; metrics := m0; websocket := ws0; trace := [] |} in
  let r := post_api_chat settings request body env w in
  let client_id := Deps._client_identifier_from_headers
                     (Deps.headers request) (Deps.client_host request) in
  validate body = Raise (ValidationError "messages must contain at least one item") /\
  (forall a, In a (trace r.2) -> is_backend_call a = false) /\
  events_of (trace r.2) = [] /\
  metrics r.2 = m0 /\
  (exists status_code detail, r.1 = Ok (ErrorResponse status_code detail)) /\
  (Deps.verify_api_key settings request = Ok tt ->
   forall lim, (Deps.get_rate_limiter settings w).1 = Ok lim ->
     let a := RateLimiter.allow lim client_id (admit_clock env) in
     trace r.2 = [Allow client_id a.1] /\
     limiter r.2 = Some a.2 /\
     r.1 = Ok (if a.1
               then ErrorResponse 422 "messages must contain at least one item"
               else ErrorResponse 429 "Rate limit exceeded")).
Proof.
  intros Hm w r client_id.
  pose proof (validate_empty_messages body Hm) as Hv.
  split; [exact Hv|].
  subst r. rewrite post_api_chat_unfold. rewrite Hv.
  pose proof (enforce_rate_limit_run settings request (admit_clock env) w) as Hrun.
  cbv zeta in Hrun. fold client_id in Hrun.
  destruct (Deps.verify_api_key settings request) as [[]|e].
  2:{ cbn [fst snd trace metrics w].
      split; [intros a []|]. split; [reflexivity|]. split; [reflexivity|].
      split; [|intros Habs; discriminate Habs].
      destruct e; cbn; eexists _, _; reflexivity. }
  destruct (Deps.get_rate_limiter settings w).1 as [lim|e] eqn:Eg; rewrite Hrun; clear Hrun.
  2:{ cbn [fst snd trace metrics w].
      split; [intros a []|]. split; [reflexivity|]. split; [reflexivity|].
      split; [|intros _ lim Habs; discriminate Habs].
      destruct e; cbn; eexists _, _; reflexivity. }
  destruct (RateLimiter.allow lim client_id (admit_clock env)) as [ans lim'] eqn:Ea.
  cbn [fst snd].
  destruct ans; cbn [fst snd trace metrics limiter w app exception_response].
  - split; [intros a [<-|[]]; reflexivity|]. split; [reflexivity|]. split; [reflexivity|].
    split; [eexists _, _; reflexivity|].
    intros _ lim1 [= <-]. rewrite Ea. cbn. repeat split; reflexivity.
  - split; [intros a [<-|[]]; reflexivity|]. split; [reflexivity|]. split; [reflexivity|].
    split; [eexists _, _; reflexivity|].
    intros _ lim1 [= <-]. rewrite Ea. cbn. repeat split; reflexivity.
Qed.

End RouteFacts.

(** ** Examples of the routes *)

Section RouteExamples.
Import Schemas Main.
#[local] Existing Instance example_builtins.

Lemma empty_messages_rejected_witness :
  let r := post_api_chat default_settings proxied_client empty_body
             (example_request_env 0) initial_world in
  validate empty_body = Raise (ValidationError "messages must contain at least one item") /\
  (forall a, In a (trace r.2) -> is_backend_call a = false) /\
  events_of (trace r.2) = [] /\
  metrics r.2 = Metrics.metrics.
Proof.
  destruct (empty_messages_rejected default_settings proxied_client empty_body
              (example_request_env 0) None Metrics.metrics
              {| application_state := CONNECTING; peer_accepts := None |} eq_refl)
    as (H1 & H2 & H3 & H4 & _).
  cbv zeta. repeat split; assumption.
Defined.

(** C5 (as stated) fails: the request with an empty messages list is
    passed to the limiter before its body is validated.  On a fresh process
    [allow] is called for the client and takes one token of its bucket,
    which is left with 5 of 6; and when the client has used up its burst
    the same request is answered 429, not by the validation failure. *)
Lemma empty_messages_rejected_counterexample :
  let fresh := post_api_chat default_settings proxied_client empty_body
                 (example_request_env 0) initial_world in
  let starved := post_api_chat default_settings proxied_client empty_body
                   (example_request_env 0) exhausted_world in
  (fresh.1 = Ok (ErrorResponse 422 "messages must contain at least one item") /\
   trace fresh.2 = [Allow "10.0.0.7" true] /\
   exists lim b, limiter fresh.2 = Some lim /\
                 RateLimiter._buckets lim !! "10.0.0.7" = Some b /\
                 (RateLimiter.tokens b == 5)%Q) /\
  (starved.1 = Ok (ErrorResponse 429 "Rate limit exceeded") /\
   trace starved.2 = [Allow "10.0.0.7" false]).
Proof.
  cbv zeta. split.
  - split; [vm_compute; reflexivity|]. split; [vm_compute; reflexivity|].
    eexists _, _. split; [vm_compute; reflexivity|].
    split; [vm_compute; reflexivity|]. vm_compute. reflexivity.
  - split; vm_compute; reflexivity.
Qed.

(** An admitted streaming request: the admission, then the backend call,
    then the events. *)
Example admitted_request_streams :
  trace (post_api_chat default_settings proxied_client (hi_body true)
           (example_request_env 0) initial_world).2
  = [Allow "10.0.0.7" true;
     StreamChat "llama3" [{| role := user; content := "hi" |}] no_options;
     Yield (Token "hello");
     Yield (Done "hello" {| prompt_tokens := 5; completion_tokens := 2; total_tokens := 7 |} 250)].
Proof. vm_compute. reflexivity. Qed.

(** An admitted non-streaming request: the end-to-end example of the
    specification, with usage 5, 2, 7. *)
Example admitted_request_answers :
  let r := post_api_chat default_settings proxied_client (hi_body false)
             (example_request_env 0) initial_world in
  trace r.2 = [Allow "10.0.0.7" true;
               Chat "llama3" [{| role := user; content := "hi" |}] no_options] /\
  exists body, r.1 = Ok (JsonResponse body) /\
               response_content body = "hello" /\
               usage body = {| prompt_tokens := 5; completion_tokens := 2; total_tokens := 7 |}.
Proof.
  cbv zeta. split; [vm_compute; reflexivity|].
  eexists. split; [vm_compute; reflexivity|]. split; reflexivity.
Qed.

(** A rejected request: the 429 response and nothing else. *)
Example rejected_request :
  let r := post_api_chat default_settings proxied_client (hi_body true)
             (example_request_env 0) exhausted_world in
  r.1 = Ok (ErrorResponse 429 "Rate limit exceeded") /\
  trace r.2 = [Allow "10.0.0.7" false].
Proof. cbv zeta. split; vm_compute; reflexivity. Qed.

(** One admission serves every turn of a connection: the limiter is asked
    at the handshake only, and both turns call the backend. *)
Example two_turns_one_admission :
  let turn := example_turn [[("response", VStr "ok")]; [("done", VBool true)]] in
  let r := websocket_chat default_settings proxied_client 0
             [(Message hi_turn, turn); (Message hi_turn, turn); (ClientDisconnect, turn)]
             initial_world in
  r.1 = Ok tt /\
  trace r.2
  = [Allow "10.0.0.7" true; Accept;
     StreamChat "llama3" [{| role := user; content := "hi" |}] no_options;
     Send (Token "ok");
     Send (Done "ok" {| prompt_tokens := 0; completion_tokens := 0; total_tokens := 0 |} 250);
     StreamChat "llama3" [{| role := user; content := "hi" |}] no_options;
     Send (Token "ok");
     Send (Done "ok" {| prompt_tokens := 0; completion_tokens := 0; total_tokens := 0 |} 250)].
Proof. cbv zeta. split; vm_compute; reflexivity. Qed.

(** A rejected handshake: the policy-violation close and nothing else. *)
Example rejected_handshake :
  let turn := example_turn [[("response", VStr "ok")]; [("done", VBool true)]] in
  let r := websocket_chat default_settings proxied_client 0
             [(Message hi_turn, turn)] exhausted_world in
  r.1 = Raise (WebSocketException 1008 "Rate limit exceeded") /\
  trace r.2 = [Allow "10.0.0.7" false].
Proof. cbv zeta. split; vm_compute; reflexivity. Qed.

End RouteExamples.

(** * Further properties *)

(** ** The token bucket over time *)

Section RateLimiterBounds.
Import RateLimiter.

Lemma admitted_cons (answer : bool) (answers : list bool) :
  admitted (answer :: answers)
  = ((if answer then 1 else 0) + admitted answers)%nat.
Proof.
  unfold admitted. destruct answer.
  - now rewrite filter_cons_True by reflexivity.
  - now rewrite filter_cons_False by discriminate.
Qed.

(** One call, seen from the bucket: the stored bucket is stamped with the
    clock reading, keeps a non-negative number of tokens, and the tokens it
    holds plus the admission it granted do not exceed the refilled value. *)
Lemma allow_budget (self : t) (client_id : string) (now : Q) (b : Bucket) :
  (0 <= rate self)%Q -> (0 <= capacity self)%Q ->
  _buckets self !! client_id = Some b -> (0 <= tokens b)%Q ->
  exists b', _buckets (allow self client_id now).2 !! client_id = Some b' /\
             timestamp b' = now /\ (0 <= tokens b')%Q /\
             (inject_Z (Z.of_nat (if (allow self client_id now).1 then 1 else 0))
              + tokens b' == refill_spec self b now)%Q.
Proof.
  intros Hr Hc Hl Hb.
  pose proof (allow_rule self client_id now) as Hrule. cbv zeta in Hrule.
  assert (Hbk : bucket_of self client_id now = b) by (unfold bucket_of; now rewrite Hl).
  rewrite Hbk in Hrule.
  assert (H0 : (0 <= refill_spec self b now)%Q).
  { unfold refill_spec. apply Q.min_glb; [exact Hc|].
    pose proof (Q.le_max_l 0 (now - timestamp b)) as Hm.
    pose proof (Qmult_le_0_compat _ _ Hm Hr) as Hp.
    set (p := (Qmax 0 (now - timestamp b) * rate self)%Q) in *. lra. }
  destruct Hrule as [Hrej Hadm].
  destruct (Qlt_le_dec (refill_spec self b now) 1) as [Hlt|Hge].
  - destruct (Hrej Hlt) as [-> (b' & Hl' & Hk' & Ht')].
    exists b'. split; [exact Hl'|]. split; [exact Ht'|].
    change (inject_Z (Z.of_nat 0)) with 0%Q. split; lra.
  - destruct (Hadm Hge) as [-> (b' & Hl' & Hk' & Ht')].
    exists b'. split; [exact Hl'|]. split; [exact Ht'|].
    change (inject_Z (Z.of_nat 1)) with 1%Q. split; lra.
Qed.

(** The budget of one bucket over a history of its own calls with
    non-decreasing clock readings: what it admits plus what it still holds
    is at most what it held plus the refill over the time that passed. *)
Lemma bucket_budget (times : list Q) (self : t) (client_id : string) (b : Bucket) :
  (0 <= rate self)%Q -> (0 <= capacity self)%Q ->
  _buckets self !! client_id = Some b -> (0 <= tokens b)%Q ->
  Sorted Qle (timestamp b :: times) ->
  let r := run self (map (pair client_id) times) in
  exists b', _buckets r.2 !! client_id = Some b' /\
             (0 <= tokens b')%Q /\
             In (timestamp b') (timestamp b :: times) /\
             (inject_Z (Z.of_nat (admitted r.1)) + tokens b'
              <= tokens b + rate self * (timestamp b' - timestamp b))%Q.
Proof.
  revert self b. induction times as [|now times IH]; intros self b Hr Hc Hl Hb Hs r.
  - subst r. simpl. exists b. repeat split; auto.
    change (inject_Z (Z.of_nat (admitted []))) with 0%Q.
    assert (Hz : (rate self * (timestamp b - timestamp b) == 0)%Q) by ring.
    rewrite Hz. lra.
  - subst r. cbn [map]. rewrite run_cons. cbn [fst snd].
    apply Sorted_inv in Hs as [Hs Hhd]. apply HdRel_inv in Hhd.
    destruct (allow_budget self client_id now b Hr Hc Hl Hb) as (b1 & Hl1 & Ht1 & Hb1 & Hsum).
    pose proof (allow_rate self client_id now) as Hrate.
    pose proof (allow_capacity self client_id now) as Hcap.
    destruct (IH (allow self client_id now).2 b1) as (b' & Hl' & Hb' & Hin & Hsum').
    + now rewrite Hrate.
    + now rewrite Hcap.
    + exact Hl1.
    + exact Hb1.
    + now rewrite Ht1.
    + exists b'. split; [exact Hl'|]. split; [exact Hb'|].
      split; [right; rewrite Ht1 in Hin; exact Hin|].
      rewrite admitted_cons, Nat2Z.inj_add, inject_Z_plus.
      rewrite Hrate, Ht1 in Hsum'.
      assert (Hre : (refill_spec self b now <= tokens b + rate self * (now - timestamp b))%Q).
      { unfold refill_spec.
        apply Qle_trans with (tokens b + Qmax 0 (now - timestamp b) * rate self)%Q;
          [apply Q.le_min_r|].
        rewrite (Q.max_r 0 (now - timestamp b)) by lra. lra. }
      assert (Hsplit : (rate self * (timestamp b' - timestamp b)
                        == rate self * (timestamp b' - now)
                           + rate self * (now - timestamp b))%Q) by ring.
      rewrite Hsplit. lra.
Qed.

Lemma Sorted_Qle_filter (P : string * Q -> Prop) `{forall c, Decision (P c)}
    (calls : list (string * Q)) :
  Sorted Qle (map snd calls) -> Sorted Qle (map snd (filter P calls)).
Proof.
  intros Hs. apply StronglySorted_Sorted.
  apply Sorted_StronglySorted in Hs; [|intros x y z; apply Qle_trans].
  induction calls as [|c calls IH]; [constructor|].
  cbn [map] in Hs. apply StronglySorted_inv in Hs as [Hs Hall].
  destruct (decide (P c)).
  - rewrite filter_cons_True by assumption. cbn [map]. constructor; [now apply IH|].
    rewrite List.Forall_forall in *. intros t Ht.
    apply in_map_iff in Ht as (c' & <- & Hc').
    apply Hall. apply in_map. apply list_elem_of_In.
    apply list_elem_of_In in Hc'. now apply list_elem_of_filter in Hc' as [_ Hc'].
  - rewrite filter_cons_False by assumption. now apply IH.
Qed.

Lemma filter_own_calls (who : string) (calls : list (string * Q)) :
  filter (fun c => c.1 = who) calls
  = map (pair who) (map snd (filter (fun c => c.1 = who) calls)).
Proof.
  induction calls as [|[c n] calls IH]; [reflexivity|].
  destruct (decide (c = who)) as [->|Hne].
  - rewrite filter_cons_True by reflexivity. cbn [map snd]. now rewrite <- IH.
  - rewrite filter_cons_False by (simpl; congruence). exact IH.
Qed.

Lemma answers_for_own (who : string) (self : t) (times : list Q) :
  answers_for who self (map (pair who) times) = (run self (map (pair who) times)).1.
Proof.
  revert self. induction times as [|now times IH]; intros self; [reflexivity|].
  cbn [map]. rewrite answers_for_cons, run_cons, decide_True by reflexivity.
  cbn [fst]. now rewrite IH.
Qed.





Lemma allow_buckets (self : t) (client_id : string) (now : Q) :
  exists b, _buckets (allow self client_id now).2 = <[client_id := b]> (_buckets self).
Proof.
  rewrite allow_unfold. cbv zeta. destruct (Qltb _ _); eexists; reflexivity.
Qed.

(** X3.  Buckets are created on first use and never evicted: after any
    history the limiter holds a bucket for exactly the identities it held
    one for before and those that called. *)
Theorem buckets_never_evicted (self : t) (calls : list (string * Q)) :
  dom (_buckets (run self calls).2)
  = dom (_buckets self) ∪ list_to_set (calls.*1).
Proof.
  revert self. induction calls as [|[c n] calls IH]; intros self.
  - simpl. now rewrite (right_id_L ∅ (∪)).
  - rewrite run_cons. cbn [snd]. rewrite IH.
    destruct (allow_buckets self c n) as [b ->].
    rewrite dom_insert_L. rewrite fmap_cons. cbn [fst list_to_set].
    rewrite (comm_L (∪) {[c]} (dom (_buckets self))).
    now rewrite (assoc_L (∪)).
Qed.



(** *** Identities without a bucket *)

Lemma allow_unseen (self : t) (client_id : string) (now : Q) :
  (1 <= capacity self)%Q -> _buckets self !! client_id = None ->
  (allow self client_id now).1 = true.
Proof.
  intros Hc Hn.
  pose proof (allow_rule self client_id now) as Hrule. cbv zeta in Hrule.
  assert (Hbk : bucket_of self client_id now = {| tokens := capacity self; timestamp := now |})
    by (unfold bucket_of; now rewrite Hn).
  rewrite Hbk in Hrule. apply Hrule.
  unfold refill_spec. cbn [tokens timestamp].
  assert (E : (Qmax 0 (now - now) == 0)%Q) by (apply Q.max_l; lra).
  rewrite E. apply Q.min_glb; lra.
Qed.

(** X11.  The limiter bounds each identity, not the callers as a whole:
    in a history in which every call comes under an identity that has no
    bucket yet, every call is admitted, however many there are and however
    close together, and whatever the refill rate. *)
Theorem unseen_identities_all_admitted (self : t) (calls : list (string * Q)) :
  (1 <= capacity self)%Q ->
  NoDup (calls.*1) ->
  Forall (fun c => _buckets self !! c.1 = None) calls ->
  (run self calls).1 = replicate (length calls) true.
Proof.
  intros Hc. revert self Hc.
  induction calls as [|[c n] calls IH]; intros self Hc Hnd Hall; [reflexivity|].
  rewrite run_cons. cbn [fst snd length replicate].
  apply NoDup_cons in Hnd as [Hnin Hnd].
  apply Forall_cons in Hall as [Hhd Hall]. cbn [fst] in Hhd.
  rewrite allow_unseen by assumption. f_equal.
  apply IH; [now rewrite allow_capacity|exact Hnd|].
  rewrite List.Forall_forall in Hall |- *. intros [c' n'] Hin. cbn [fst].
  rewrite allow_frame; [exact (Hall _ Hin)|].
  intros ->. apply Hnin. apply list_elem_of_In. apply in_map_iff.
  exists (c', n'). now split.
Qed.

Lemma unseen_identities_all_admitted_witness :
  (run {| rate := 1 # 100; capacity := 1; _buckets := ∅ |}
       [("a", 0%Q); ("b", 0%Q); ("c", 0%Q)]).1 = replicate 3 true.
Proof.
  apply (unseen_identities_all_admitted
           {| rate := 1 # 100; capacity := 1; _buckets := ∅ |}
           [("a", 0%Q); ("b", 0%Q); ("c", 0%Q)]).
  - vm_compute; discriminate.
  - apply NoDup_ListNoDup. repeat constructor; simpl; intuition congruence.
  - repeat constructor.
Defined.

End RateLimiterBounds.
(** ** The collector over time *)

Section MetricsBounds.
Import Metrics.

Lemma record_each_snoc (m : t) (samples : list Sample) (s : Sample) :
  record_each m (samples ++ [s])
  = record (record_each m samples) (sample_latency_ms s)
      (sample_prompt_tokens s) (sample_completion_tokens s).
Proof. unfold record_each. now rewrite foldl_app. Qed.

Lemma record_each_maxlen (m : t) (samples : list Sample) :
  maxlen (record_each m samples) = maxlen m.
Proof.
  induction samples as [|s samples IH] using rev_ind; [reflexivity|].
  now rewrite record_each_snoc.
Qed.

(** X5.  The counters are cumulative and never decrease: after any calls
    of [record], [requests_total] has grown by the number of calls, and
    each token total by the sum of the counts recorded, a negative count
    counting as zero. *)
Theorem counters_accumulate (m : t) (samples : list Sample) :
  _requests_total (record_each m samples)
  = (_requests_total m + Z.of_nat (length samples))%Z /\
  _prompt_tokens (record_each m samples)
  = (_prompt_tokens m
     + foldr Z.add 0 (map (fun s => Z.max 0 (sample_prompt_tokens s)) samples))%Z /\
  _completion_tokens (record_each m samples)
  = (_completion_tokens m
     + foldr Z.add 0 (map (fun s => Z.max 0 (sample_completion_tokens s)) samples))%Z /\
  (_requests_total m <= _requests_total (record_each m samples))%Z /\
  (_prompt_tokens m <= _prompt_tokens (record_each m samples))%Z /\
  (_completion_tokens m <= _completion_tokens (record_each m samples))%Z.
Proof.
  assert (Hsum : forall (f : Sample -> Z) (l : list Sample) (s : Sample),
            foldr Z.add 0%Z (map f (l ++ [s])) = (foldr Z.add 0 (map f l) + f s)%Z).
  { intros f l s. induction l as [|x l IH]; simpl; [lia|]. rewrite IH. lia. }
  induction samples as [|s samples IH] using rev_ind.
  - simpl. repeat split; lia.
  - destruct IH as (H1 & H2 & H3 & H4 & H5 & H6).
    rewrite record_each_snoc. cbn [record _requests_total _prompt_tokens _completion_tokens].
    rewrite !Hsum, length_app. cbn [length].
    repeat split; lia.
Qed.

(** X6.  The window keeps the most recent samples: after any calls of
    [record] on a window within its bound, the window holds the last
    [maxlen] items of the old latencies followed by the new ones, each new
    one clamped at zero; it never holds more than [maxlen] items. *)
Theorem window_keeps_most_recent (m : t) (samples : list Sample) :
  (length (_latencies m) <= maxlen m)%nat ->
  let history := _latencies m ++ map clamped_latency samples in
  _latencies (record_each m samples) = drop (length history - maxlen m) history /\
  length (_latencies (record_each m samples)) = Nat.min (maxlen m) (length history) /\
  Forall (fun x => (0 <= x)%Q) (map clamped_latency samples).
Proof.
  intros Hm history.
  assert (Hw : _latencies (record_each m samples) = drop (length history - maxlen m) history).
  { subst history. induction samples as [|s samples IH] using rev_ind.
    - simpl. rewrite app_nil_r.
      replace (length (_latencies m) - maxlen m)%nat with 0%nat by lia. reflexivity.
    - rewrite record_each_snoc. cbn [record _latencies].
      rewrite record_each_maxlen, IH, map_app, app_assoc. cbn [map].
      apply deque_append_recent. }
  split; [exact Hw|]. split.
  - rewrite Hw, length_drop. lia.
  - apply List.Forall_forall. intros x Hx. apply in_map_iff in Hx as (s & <- & _).
    apply py_max_0_nonneg.
Qed.

Lemma window_keeps_most_recent_witness :
  _latencies (record_each (__init__ 2)
                [{| sample_latency_ms := 120; sample_prompt_tokens := 5;
                    sample_completion_tokens := 2 |};
                 {| sample_latency_ms := - (3); sample_prompt_tokens := - (1);
                    sample_completion_tokens := 0 |};
                 {| sample_latency_ms := 250; sample_prompt_tokens := 1;
                    sample_completion_tokens := 1 |}])
  = [0%Q; 250%Q].
Proof.
  refine (eq_trans (proj1 (window_keeps_most_recent (__init__ 2) _ _)) _).
  - simpl. lia.
  - reflexivity.
Defined.

(** *** Percentiles as order statistics *)

Lemma percentile_spec_interpolate (x : Q) (w : list Q) (p : Q) :
  percentile_spec (x :: w) p
  = interpolate (sorted (x :: w))
      (inject_Z (Z.of_nat (length (sorted (x :: w))) - 1) * p).
Proof. reflexivity. Qed.

Lemma sorted_nth_mono (l : list Q) (i j : nat) :
  Sorted Qle l -> (i <= j)%nat -> (j < length l)%nat ->
  (nth i l 0 <= nth j l 0)%Q.
Proof.
  intros Hs. apply Sorted_StronglySorted in Hs; [|intros x y z; apply Qle_trans].
  revert i j. induction Hs as [|x l Hs IH Hall]; intros i j Hij Hj; [simpl in Hj; lia|].
  destruct i as [|i], j as [|j]; simpl in *; try lia.
  - apply Qle_refl.
  - rewrite List.Forall_forall in Hall. apply Hall. apply nth_In. lia.
  - apply IH; lia.
Qed.

(** An interpolated value lies between its two neighbours. *)
Lemma interpolate_between (l : list Q) (k : Q) :
  Sorted Qle l -> (0 <= Qfloor k)%Z -> (Qceiling k < Z.of_nat (length l))%Z ->
  (nth (Z.to_nat (Qfloor k)) l 0 <= interpolate l k)%Q /\
  (interpolate l k <= nth (Z.to_nat (Qceiling k)) l 0)%Q.
Proof.
  intros Hs Hf Hc. unfold interpolate.
  destruct (Qfloor k =? Qceiling k)%Z eqn:E.
  - apply Z.eqb_eq in E. rewrite <- E. split; apply Qle_refl.
  - apply Z.eqb_neq in E.
    destruct (interpolation_weights k E) as (Hfc & Hw1 & Hw2 & Hsum).
    assert (Hlh : (nth (Z.to_nat (Qfloor k)) l 0 <= nth (Z.to_nat (Qceiling k)) l 0)%Q).
    { apply sorted_nth_mono; [exact Hs|lia|lia]. }
    set (lo := nth (Z.to_nat (Qfloor k)) l 0%Q) in *.
    set (hi := nth (Z.to_nat (Qceiling k)) l 0%Q) in *.
    set (w1 := (inject_Z (Qceiling k) - k)%Q) in *.
    set (w2 := (k - inject_Z (Qfloor k))%Q) in *.
    assert (H1 : (0 <= (hi - lo) * w2)%Q) by (apply Qmult_le_0_compat; lra).
    assert (H2 : (0 <= (hi - lo) * w1)%Q) by (apply Qmult_le_0_compat; lra).
    assert (E1 : (lo * w1 + hi * w2 == lo * (w1 + w2) + (hi - lo) * w2)%Q) by ring.
    assert (E2 : (lo * w1 + hi * w2 == hi * (w1 + w2) - (hi - lo) * w1)%Q) by ring.
    split.
    + rewrite E1, Hsum. lra.
    + rewrite E2, Hsum. lra.
Qed.

(** Interpolation over a sorted list grows with the position. *)
Lemma interpolate_mono (l : list Q) (k k' : Q) :
  Sorted Qle l -> (k <= k')%Q ->
  (0 <= Qfloor k)%Z -> (Qceiling k' < Z.of_nat (length l))%Z ->
  (interpolate l k <= interpolate l k')%Q.
Proof.
  intros Hs Hkk Hf Hc'.
  pose proof (Qfloor_resp_le _ _ Hkk) as Hff.
  pose proof (Qceiling_resp_le _ _ Hkk) as Hcc.
  assert (Hfc : (Qfloor k <= Qceiling k)%Z).
  { rewrite Zle_Qle. eapply Qle_trans; [apply Qfloor_le|apply Qle_ceiling]. }
  assert (Hfc' : (Qfloor k' <= Qceiling k')%Z).
  { rewrite Zle_Qle. eapply Qle_trans; [apply Qfloor_le|apply Qle_ceiling]. }
  destruct (interpolate_between l k Hs) as [Hlo Hhi]; [lia|lia|].
  destruct (interpolate_between l k' Hs) as [Hlo' Hhi']; [lia|lia|].
  destruct (Z.eq_dec (Qfloor k) (Qfloor k')) as [Esame|Ediff].
  - destruct (Z.eq_dec (Qfloor k) (Qceiling k)) as [Eint|Efrac].
    + apply Qle_trans with (nth (Z.to_nat (Qfloor k')) l 0%Q); [|exact Hlo'].
      rewrite <- Esame. unfold interpolate.
      apply Z.eqb_eq in Eint. rewrite Eint. apply Qle_refl.
    + destruct (interpolation_weights k Efrac) as (Ec & _).
      assert (Efrac' : Qfloor k' <> Qceiling k') by lia.
      destruct (interpolation_weights k' Efrac') as (Ec' & _).
      unfold interpolate.
      apply Z.eqb_neq in Efrac, Efrac'. rewrite Efrac, Efrac'.
      rewrite <- Esame. replace (Qceiling k') with (Qceiling k) by lia.
      assert (Hlh : (nth (Z.to_nat (Qfloor k)) l 0 <= nth (Z.to_nat (Qceiling k)) l 0)%Q).
      { apply sorted_nth_mono; [exact Hs|lia|lia]. }
      set (lo := nth (Z.to_nat (Qfloor k)) l 0%Q) in *.
      set (hi := nth (Z.to_nat (Qceiling k)) l 0%Q) in *.
      assert (Hp : (0 <= (hi - lo) * (k' - k))%Q) by (apply Qmult_le_0_compat; lra).
      assert (E : (lo * (inject_Z (Qceiling k) - k') + hi * (k' - inject_Z (Qfloor k))
                   == lo * (inject_Z (Qceiling k) - k) + hi * (k - inject_Z (Qfloor k))
                      + (hi - lo) * (k' - k))%Q) by ring.
      rewrite E. lra.
  - assert (Hstep : (Qceiling k <= Qfloor k')%Z).
    { destruct (Z.eq_dec (Qfloor k) (Qceiling k)) as [Eint|Efrac]; [lia|].
      destruct (interpolation_weights k Efrac) as (Ec & _). lia. }
    apply Qle_trans with (nth (Z.to_nat (Qceiling k)) l 0%Q); [exact Hhi|].
    apply Qle_trans with (nth (Z.to_nat (Qfloor k')) l 0%Q); [|exact Hlo'].
    apply sorted_nth_mono; [exact Hs|lia|lia].
Qed.

Lemma In_sorted_nth (l : list Q) (x : Q) :
  In x l -> exists i, (i < length (sorted l))%nat /\ nth i (sorted l) 0%Q = x.
Proof.
  intros Hx. apply (Permutation_in _ (sorted_perm l)) in Hx.
  destruct (In_nth _ _ 0%Q Hx) as (i & Hi & E). now exists i.
Qed.

Lemma sorted_nth_In (l : list Q) (i : nat) :
  (i < length l)%nat -> In (nth i (sorted l) 0%Q) l.
Proof.
  intros Hi. apply (Permutation_in _ (Permutation_sym (sorted_perm l))).
  apply nth_In. now rewrite sorted_length.
Qed.





Lemma interpolate_whole (l : list Q) (k : Q) (i : Z) :
  (k == inject_Z i)%Q -> interpolate l k = nth (Z.to_nat i) l 0%Q.
Proof.
  intros E. unfold interpolate.
  rewrite (Qfloor_comp _ _ E), (Qceiling_comp _ _ E), Qfloor_Z, Qceiling_Z.
  now rewrite Z.eqb_refl.
Qed.

(** X9.  The extreme fractions select the extreme samples: over a
    non-empty window the percentile at 0 is its smallest sample and the
    percentile at 1 its largest. *)
Theorem percentile_extremes (window : list Q) :
  window <> [] ->
  exists lo hi, _percentile window 0 = Ok lo /\ _percentile window 1 = Ok hi /\
                In lo window /\ In hi window /\
                Forall (fun x => (lo <= x)%Q /\ (x <= hi)%Q) window.
Proof.
  intros Hne.
  exists (percentile_spec window 0), (percentile_spec window 1).
  split; [apply percentile_refines; vm_compute; discriminate|].
  split; [apply percentile_refines; vm_compute; discriminate|].
  destruct window as [|x w]; [congruence|].
  rewrite !percentile_spec_interpolate.
  set (l := sorted (x :: w)).
  assert (El : length l = S (length w)) by (subst l; now rewrite sorted_length).
  rewrite (interpolate_whole l _ 0) by ring.
  rewrite (interpolate_whole l _ (Z.of_nat (length l) - 1)) by ring.
  change (Z.to_nat 0) with 0%nat.
  replace (Z.to_nat (Z.of_nat (length l) - 1)) with (length w) by lia.
  split; [apply sorted_nth_In; simpl; lia|].
  split; [apply sorted_nth_In; simpl; lia|].
  apply List.Forall_forall. intros y Hy.
  destruct (In_sorted_nth _ _ Hy) as (i & Hi & E). fold l in Hi, E.
  rewrite <- E. split; apply sorted_nth_mono; try apply sorted_sorted; lia.
Qed.

Lemma percentile_extremes_witness :
  exists lo hi, _percentile [40; 10; 30; 20]%Q 0 = Ok lo /\
                _percentile [40; 10; 30; 20]%Q 1 = Ok hi /\
                In lo [40; 10; 30; 20]%Q /\ In hi [40; 10; 30; 20]%Q /\
                Forall (fun x => (lo <= x)%Q /\ (x <= hi)%Q) [40; 10; 30; 20]%Q.
Proof. apply (percentile_extremes [40; 10; 30; 20]%Q). discriminate. Defined.

Lemma record_each_nonneg (m : t) (samples : list Sample) :
  Forall (Qle 0) (_latencies m) ->
  Forall (Qle 0) (_latencies (record_each m samples)).
Proof.
  intros Hm. induction samples as [|s samples IH] using rev_ind; [exact Hm|].
  rewrite record_each_snoc. cbn [record _latencies]. unfold deque_append.
  apply Forall_drop. apply Forall_app. split; [exact IH|].
  constructor; [apply py_max_0_nonneg|constructor].
Qed.


End MetricsBounds.

(** ** Identities and keys *)

Section DepsFacts.
Import Deps.

Local Open Scope string_scope.

Lemma nonempty_true (s : string) : nonempty s = true <-> s <> "".
Proof.
  unfold nonempty. rewrite negb_true_iff. split.
  - intros E ->. now rewrite String.eqb_refl in E.
  - intros Hne. destruct (String.eqb_spec s ""); [contradiction|reflexivity].
Qed.

Lemma nonempty_false (s : string) : nonempty s = false <-> s = "".
Proof.
  unfold nonempty. rewrite negb_false_iff. apply String.eqb_eq.
Qed.

Lemma space_not_comma (c : Ascii.ascii) :
  is_space c = true -> Ascii.eqb c (Ascii.ascii_of_nat 44) = false.
Proof.
  intros Hs. destruct (Ascii.eqb_spec c (Ascii.ascii_of_nat 44)) as [->|]; [|reflexivity].
  vm_compute in Hs. discriminate.
Qed.

Lemma before_comma_no_comma (s : string) : no_comma (before_comma s) = true.
Proof.
  induction s as [|c s IH]; [reflexivity|]. simpl.
  destruct (Ascii.eqb c (Ascii.ascii_of_nat 44)) eqn:E; [reflexivity|].
  simpl. now rewrite E, IH.
Qed.

Lemma before_comma_app (a tail : string) :
  no_comma a = true ->
  (tail = "" \/ exists rest, tail = String (Ascii.ascii_of_nat 44) rest) ->
  before_comma (a ++ tail) = a.
Proof.
  intros Ha Ht. induction a as [|c a IH]; simpl in *.
  - destruct Ht as [->|[rest ->]]; reflexivity.
  - apply andb_true_iff in Ha as [Hc Ha]. apply negb_true_iff in Hc.
    rewrite Hc. f_equal. now apply IH.
Qed.

Lemma no_comma_app (a b : string) :
  no_comma (a ++ b) = no_comma a && no_comma b.
Proof.
  induction a as [|c a IH]; [reflexivity|]. simpl. now rewrite IH, andb_assoc.
Qed.

Lemma all_space_no_comma (s : string) : all_space s = true -> no_comma s = true.
Proof.
  induction s as [|c s IH]; [reflexivity|]. simpl.
  intros Hs. apply andb_true_iff in Hs as [Hc Hs].
  now rewrite (space_not_comma c Hc), IH.
Qed.

Lemma lstrip_app_space (p s : string) :
  all_space p = true -> lstrip (p ++ s) = lstrip s.
Proof.
  induction p as [|c p IH]; [reflexivity|]. simpl.
  intros Hp. apply andb_true_iff in Hp as [Hc Hp]. rewrite Hc. now apply IH.
Qed.

Lemma rstrip_all_space (p : string) : all_space p = true -> rstrip p = "".
Proof.
  induction p as [|c p IH]; [reflexivity|]. simpl.
  intros Hp. apply andb_true_iff in Hp as [Hc Hp]. now rewrite IH, Hc.
Qed.

Lemma rstrip_empty (s : string) : rstrip s = "" -> all_space s = true.
Proof.
  induction s as [|c s IH]; [reflexivity|]. simpl.
  destruct (rstrip s) as [|d r] eqn:E; [|discriminate].
  destruct (is_space c); [|discriminate]. intros _. now apply IH.
Qed.

Lemma rstrip_app_space (s p : string) :
  all_space p = true -> rstrip (s ++ p) = rstrip s.
Proof.
  intros Hp. induction s as [|c s IH]; simpl.
  - now apply rstrip_all_space.
  - now rewrite IH.
Qed.

Lemma lstrip_all_space (p : string) : all_space p = true -> lstrip p = "".
Proof.
  induction p as [|c p IH]; [reflexivity|]. simpl.
  intros Hp. apply andb_true_iff in Hp as [Hc Hp]. rewrite Hc. now apply IH.
Qed.

Lemma lstrip_empty (s : string) : lstrip s = "" -> all_space s = true.
Proof.
  induction s as [|c s IH]; [reflexivity|]. simpl.
  destruct (is_space c); [exact IH|discriminate].
Qed.

Lemma lstrip_length (s : string) :
  lstrip s = s \/ (String.length (lstrip s) < String.length s)%nat.
Proof.
  induction s as [|c s IH]; [now left|]. simpl.
  destruct (is_space c); [|now left]. right.
  destruct IH as [->|IH]; lia.
Qed.

Lemma rstrip_length (s : string) :
  rstrip s = s \/ (String.length (rstrip s) < String.length s)%nat.
Proof.
  induction s as [|c s IH]; [now left|]. simpl.
  destruct IH as [E|IH].
  - rewrite E. destruct s as [|d r]; [|now left].
    destruct (is_space c); [right; simpl; lia|now left].
  - right. destruct (rstrip s) as [|d r]; [|simpl in *; lia].
    destruct (is_space c); simpl in *; lia.
Qed.

(** A string that [strip] leaves alone is left alone by both of its
    halves. *)
Lemma strip_fixed (s : string) :
  strip s = s -> lstrip s = s /\ rstrip s = s.
Proof.
  unfold strip. intros E.
  destruct (lstrip_length s) as [El|Hl].
  - rewrite El in E. now split.
  - destruct (rstrip_length (lstrip s)) as [Er|Hr].
    + rewrite Er in E. rewrite E in Hl. lia.
    + rewrite E in Hr. lia.
Qed.

Lemma lstrip_head (s : string) :
  lstrip s = s -> s = "" \/ exists c r, s = String c r /\ is_space c = false.
Proof.
  destruct s as [|c r]; [now left|]. simpl.
  destruct (is_space c) eqn:E; [|right; now exists c, r].
  intros El. destruct (lstrip_length r) as [Er|Hr].
  - rewrite Er in El. exfalso. clear -El.
    assert (Hlen : String.length r = String.length (String c r)) by now rewrite <- El.
    simpl in Hlen. lia.
  - rewrite El in Hr. simpl in Hr. lia.
Qed.

Lemma rstrip_head (s : string) :
  rstrip s = "" \/ exists c r r', s = String c r /\ rstrip s = String c r'.
Proof.
  destruct s as [|c r]; [now left|]. simpl.
  destruct (rstrip r) as [|d r'].
  - destruct (is_space c); [now left|right; now exists c, r, ""].
  - right. now exists c, r, (String d r').
Qed.

Lemma rstrip_idempotent (s : string) : rstrip (rstrip s) = rstrip s.
Proof.
  induction s as [|c s IH]; [reflexivity|]. simpl.
  destruct (rstrip s) as [|d r] eqn:E.
  - destruct (is_space c) eqn:Ec; [reflexivity|]. simpl. now rewrite Ec.
  - simpl in IH |- *. destruct (rstrip r) as [|d' r''] eqn:E'.
    + destruct (is_space d); [discriminate|]. now rewrite IH.
    + now rewrite IH.
Qed.

Lemma strip_idempotent (s : string) : strip (strip s) = strip s.
Proof.
  unfold strip. set (t := lstrip s).
  assert (Ht : lstrip t = t).
  { subst t. induction s as [|c s IH]; [reflexivity|]. simpl.
    destruct (is_space c) eqn:E; [exact IH|]. simpl. now rewrite E. }
  assert (Hl : lstrip (rstrip t) = rstrip t).
  { destruct (rstrip_head t) as [->|(c & r & r' & Et & Er)]; [reflexivity|].
    rewrite Er. simpl.
    destruct (lstrip_head t Ht) as [E0|(c' & r0 & E1 & Hc)]; [congruence|].
    rewrite Et in E1. injection E1 as -> ->. now rewrite Hc. }
  rewrite Hl. apply rstrip_idempotent.
Qed.

Lemma strip_empty (s : string) : strip s = "" <-> all_space s = true.
Proof.
  unfold strip. split.
  - intros E. apply rstrip_empty in E.
    induction s as [|c s IH]; [reflexivity|]. simpl in *.
    destruct (is_space c) eqn:Ec; [now apply IH|].
    simpl in E. now rewrite Ec in E.
  - intros Hs. now rewrite (lstrip_all_space s Hs).
Qed.

(** Padding around a stripped text is what [strip] removes. *)
Lemma strip_padded (pad1 id pad2 : string) :
  all_space pad1 = true -> all_space pad2 = true -> strip id = id ->
  strip (pad1 ++ id ++ pad2) = id.
Proof.
  intros H1 H2 Hid. destruct (strip_fixed id Hid) as [Hl Hr].
  unfold strip. rewrite lstrip_app_space by exact H1.
  destruct (lstrip_head id Hl) as [->|(c & r & -> & Hc)].
  - rewrite lstrip_app_space by reflexivity.
    now rewrite (lstrip_all_space pad2 H2).
  - change (lstrip (String c r ++ pad2)) with (lstrip (String c (r ++ pad2))).
    cbn [lstrip]. rewrite Hc.
    change (String c (r ++ pad2)) with (String c r ++ pad2).
    rewrite rstrip_app_space by exact H2. exact Hr.
Qed.

Lemma append_nonempty (a b : string) : a <> "" -> a ++ b <> "".
Proof. destruct a; [congruence|discriminate]. Qed.

Lemma append_assoc (a b c : string) : (a ++ b) ++ c = a ++ b ++ c.
Proof.
  induction a as [|x a IH]; [reflexivity|].
  change (String x ((a ++ b) ++ c) = String x (a ++ b ++ c)). now rewrite IH.
Qed.

(** X12.  Behind a proxy the identity is the first entry of
    [X-Forwarded-For]: when the header holds a non-empty entry [id] (no
    comma, no white space at its ends), padded with white space and
    followed by nothing or by a comma and further entries, the identity is
    [id], whatever the host of the connection is. *)
Theorem forwarded_for_names_the_client (headers : Headers) (fallback : option string)
    (pad1 id pad2 tail : string) :
  header_get headers "x-forwarded-for" = Some (pad1 ++ id ++ pad2 ++ tail) ->
  all_space pad1 = true -> all_space pad2 = true ->
  no_comma id = true -> strip id = id -> id <> "" ->
  (tail = "" \/ exists rest, tail = String (Ascii.ascii_of_nat 44) rest) ->
  _client_identifier_from_headers headers fallback = id.
Proof.
  intros Hh H1 H2 Hc Hs Hne Ht. unfold _client_identifier_from_headers. rewrite Hh.
  assert (Hn : nonempty (pad1 ++ id ++ pad2 ++ tail) = true).
  { apply nonempty_true.
    destruct pad1; [|discriminate].
    change (id ++ pad2 ++ tail <> ""). now apply append_nonempty. }
  rewrite Hn.
  rewrite <- (append_assoc id pad2 tail), <- (append_assoc pad1 (id ++ pad2) tail).
  rewrite before_comma_app; [now apply strip_padded| |exact Ht].
  rewrite !no_comma_app, Hc, !all_space_no_comma by assumption. reflexivity.
Qed.

Lemma forwarded_for_names_the_client_witness :
  _client_identifier_from_headers
    [("x-forwarded-for", " 10.0.0.7 , 172.16.0.1")] (Some "127.0.0.1") = "10.0.0.7".
Proof.
  apply (forwarded_for_names_the_client
           [("x-forwarded-for", " 10.0.0.7 , 172.16.0.1")] (Some "127.0.0.1")
           " " "10.0.0.7" " " ", 172.16.0.1").
  - reflexivity.
  - reflexivity.
  - reflexivity.
  - reflexivity.
  - reflexivity.
  - discriminate.
  - right. now exists " 172.16.0.1".
Defined.

(** X13.  The shape of every identity.  Under a non-empty
    [X-Forwarded-For] the identity has no comma and no white space at its
    ends, and it is the empty string exactly when the first entry of the
    header is blank: the host of the connection and ["anonymous"] are not
    used then.  Without the header, or under an empty one, the identity is
    the host of the connection, or ["anonymous"] when there is none, and
    never empty. *)
Theorem client_identifier_shape (headers : Headers) (fallback : option string) :
  let id := _client_identifier_from_headers headers fallback in
  (forall h, header_get headers "x-forwarded-for" = Some h -> h <> "" ->
     no_comma id = true /\ strip id = id /\
     (id = "" <-> all_space (before_comma h) = true)) /\
  (header_get headers "x-forwarded-for" = None \/
   header_get headers "x-forwarded-for" = Some "" ->
     id <> "" /\
     (fallback = Some id \/
      id = "anonymous" /\ (fallback = None \/ fallback = Some ""))).
Proof.
  intros id. subst id. unfold _client_identifier_from_headers. split.
  - intros h Hh Hne. rewrite Hh.
    apply nonempty_true in Hne. rewrite Hne.
    split; [|split].
    + unfold strip.
      assert (Hr : forall s, no_comma s = true -> no_comma (rstrip s) = true).
      { induction s as [|c s IH]; [reflexivity|]. simpl.
        intros Hs. apply andb_true_iff in Hs as [Hc Hs]. specialize (IH Hs).
        destruct (rstrip s) as [|d r].
        - destruct (is_space c); [reflexivity|]. simpl. now rewrite Hc.
        - cbn [no_comma] in IH |- *. now rewrite Hc, IH. }
      assert (Hl : forall s, no_comma s = true -> no_comma (lstrip s) = true).
      { induction s as [|c s IH]; [reflexivity|]. simpl.
        intros Hs. destruct (is_space c); [|exact Hs].
        apply IH. now apply andb_true_iff in Hs as [_ Hs]. }
      apply Hr, Hl, before_comma_no_comma.
    + apply strip_idempotent.
    + apply strip_empty.
  - assert (Hf : match fallback with
                 | Some f => if nonempty f then f else "anonymous"
                 | None => "anonymous"
                 end <> "" /\
                 (fallback = Some match fallback with
                                  | Some f => if nonempty f then f else "anonymous"
                                  | None => "anonymous"
                                  end \/
                  match fallback with
                  | Some f => if nonempty f then f else "anonymous"
                  | None => "anonymous"
                  end = "anonymous" /\ (fallback = None \/ fallback = Some ""))).
    { destruct fallback as [f|]; [|split; [discriminate|right; auto]].
      destruct (nonempty f) eqn:E.
      - apply nonempty_true in E. split; [exact E|now left].
      - apply nonempty_false in E. subst f. split; [discriminate|right; auto]. }
    intros [-> | ->]; exact Hf.
Qed.

(** X14.  The two API-key checks decide alike.  With keys of ASCII
    characters ([secrets.compare_digest] accepts no other strings), a
    request passes [verify_api_key] exactly when a handshake with the same
    headers passes [verify_api_key_ws]: when the key is optional, or when a
    non-empty key is configured and [X-API-Key] carries exactly it.  A
    refusal is status 500 for HTTP and close code 1011 for a WebSocket when
    no key is configured, 401 and 1008 when the key is missing or wrong;
    an empty key never passes a check that is enforced. *)
Theorem api_key_checks_agree (settings : Settings) (peer : Peer) :
  ascii_only (api_key settings) = true ->
  (forall provided, header_get (headers peer) "x-api-key" = Some provided ->
                    ascii_only provided = true) ->
  let passes := api_key_optional settings = true \/
                (api_key settings <> "" /\
                 header_get (headers peer) "x-api-key" = Some (api_key settings)) in
  (verify_api_key settings peer = Ok tt <-> passes) /\
  (verify_api_key_ws settings peer = Ok tt <-> passes) /\
  (~ passes -> api_key settings = "" ->
     verify_api_key settings peer = Raise (HTTPException 500 "API key not configured") /\
     verify_api_key_ws settings peer
     = Raise (WebSocketException 1011 "API key not configured")) /\
  (~ passes -> api_key settings <> "" ->
     verify_api_key settings peer = Raise (HTTPException 401 "Invalid API key") /\
     verify_api_key_ws settings peer = Raise (WebSocketException 1008 "Invalid API key")).
Proof.
  intros _ _ passes.
  unfold verify_api_key, verify_api_key_ws, _should_enforce, _assert_key_configured.
  destruct (api_key_optional settings) eqn:Eo; cbn [negb].
  { assert (Hp : passes) by now left.
    split; [tauto|]. split; [tauto|]. split; intros Hn; contradiction. }
  destruct (nonempty (api_key settings)) eqn:Ek; cbn [negb bind].
  - assert (Hk : api_key settings <> "") by now apply nonempty_true.
    destruct (header_get (headers peer) "x-api-key") as [provided|] eqn:Eh.
    + destruct (String.eqb_spec provided (api_key settings)) as [->|Hne].
      * rewrite Ek. cbn [andb].
        assert (Hp : passes) by (right; now split).
        split; [tauto|]. split; [tauto|]. split; intros Hn; contradiction.
      * rewrite andb_false_r.
        assert (Hp : ~ passes) by (intros [E|[_ E]]; congruence).
        split; [split; [discriminate|contradiction]|].
        split; [split; [discriminate|contradiction]|].
        split; [intros _ E; contradiction|intros _ _; now split].
    + assert (Hp : ~ passes) by (intros [E|[_ E]]; congruence).
      split; [split; [discriminate|contradiction]|].
      split; [split; [discriminate|contradiction]|].
      split; [intros _ E; contradiction|intros _ _; now split].
  - assert (Hk : api_key settings = "") by now apply nonempty_false.
    assert (Hp : ~ passes) by (intros [E|[E _]]; congruence).
    split; [split; [discriminate|contradiction]|].
    split; [split; [discriminate|contradiction]|].
    split; [intros _ _; now split|intros _ E; contradiction].
Qed.

Lemma api_key_checks_agree_witness :
  verify_api_key
    {| default_model := "llama3"; api_key := "s3cret"; api_key_optional := false;
       rate_limit_rps := 3; rate_limit_burst := 6 |}
    {| headers := [("x-api-key", "s3cret")]; client_host := None |} = Ok tt.
Proof.
  apply (api_key_checks_agree
           {| default_model := "llama3"; api_key := "s3cret"; api_key_optional := false;
              rate_limit_rps := 3; rate_limit_burst := 6 |}
           {| headers := [("x-api-key", "s3cret")]; client_host := None |}).
  - reflexivity.
  - intros provided E. injection E as <-. reflexivity.
  - right. split; [discriminate|reflexivity].
Defined.

End DepsFacts.

(** ** Validation of chat requests *)

Section SchemasFacts.
Import Schemas.

Local Open Scope string_scope.

Lemma validate_role_ok (s : string) (r : Role) :
  validate_role s = Ok r <-> role_name r = s.
Proof.
  unfold validate_role.
  destruct (String.eqb_spec s "system") as [->|H1];
    [destruct r; simpl; split; congruence|].
  destruct (String.eqb_spec s "user") as [->|H2];
    [destruct r; simpl; split; congruence|].
  destruct (String.eqb_spec s "assistant") as [->|H3];
    [destruct r; simpl; split; congruence|].
  split; [discriminate|]. destruct r; simpl; congruence.
Qed.

Lemma validate_role_raise (s : string) (e : exn) :
  validate_role s = Raise e ->
  (exists msg, e = ValidationError msg) /\ ~ In s ["system"; "user"; "assistant"].
Proof.
  unfold validate_role.
  destruct (String.eqb_spec s "system") as [->|H1]; [discriminate|].
  destruct (String.eqb_spec s "user") as [->|H2]; [discriminate|].
  destruct (String.eqb_spec s "assistant") as [->|H3]; [discriminate|].
  intros E. injection E as <-. split; [now eexists|].
  simpl. intuition congruence.
Qed.

Lemma validate_message_list_ok (l : list RawMessage) (ms : list ChatMessage) :
  validate_message_list l = Ok ms ->
  map (fun m => role_name (role m)) ms = map raw_role l /\
  map content ms = map raw_content l.
Proof.
  revert ms. induction l as [|m l IH]; intros ms; simpl.
  - intros E. injection E as <-. now split.
  - destruct (validate_role (raw_role m)) as [r|e] eqn:Er; [|discriminate].
    simpl. destruct (validate_message_list l) as [ms'|e]; [|discriminate].
    simpl. intros E. injection E as <-.
    destruct (IH ms' eq_refl) as [H1 H2]. simpl.
    apply validate_role_ok in Er. now rewrite Er, H1, H2.
Qed.

Lemma validate_message_list_raise (l : list RawMessage) (e : exn) :
  validate_message_list l = Raise e ->
  (exists msg, e = ValidationError msg) /\
  ~ Forall (fun m => In (raw_role m) ["system"; "user"; "assistant"]) l.
Proof.
  induction l as [|m l IH]; simpl; [discriminate|].
  destruct (validate_role (raw_role m)) as [r|e'] eqn:Er; simpl.
  - destruct (validate_message_list l) as [ms'|e'']; [discriminate|].
    simpl. intros E. injection E as <-.
    destruct (IH eq_refl) as [Hm Hn]. split; [exact Hm|].
    intros Hall. apply Hn. now inversion Hall.
  - intros E. injection E as <-.
    destruct (validate_role_raise _ _ Er) as [Hm Hn]. split; [exact Hm|].
    intros Hall. apply Hn. now inversion Hall.
Qed.

Lemma in_bounds_spec (lo hi : Q) (x : option Q) :
  in_bounds lo hi x = true <-> forall q, x = Some q -> (lo <= q)%Q /\ (q <= hi)%Q.
Proof.
  destruct x as [q|]; simpl.
  - rewrite andb_true_iff, !Qle_bool_iff. split.
    + intros Hq q' E. now injection E as <-.
    + intros Hq. now apply Hq.
  - split; [discriminate|reflexivity].
Qed.

(** X15.  Construction of a [ChatRequest] accepts exactly the well-formed
    requests and changes nothing in them.  An accepted request has at
    least one message, the messages, in order, with the roles and
    contents that arrived, and every other field as it arrived, within its
    bounds; a request is accepted if and only if it has a message, every
    role is one of the three, [0 <= temperature <= 2], [0 <= top_p <= 1]
    and [seed >= 0] where given; and a refusal is always a validation
    error. *)
Theorem validate_accepts_well_formed (raw : RawChatRequest) :
  (forall req, validate raw = Ok req ->
     messages req <> [] /\
     map (fun m => role_name (role m)) (messages req) = map raw_role (raw_messages raw) /\
     map content (messages req) = map raw_content (raw_messages raw) /\
     model req = raw_model raw /\ stream req = raw_stream raw /\
     temperature req = raw_temperature raw /\ top_p req = raw_top_p raw /\
     seed req = raw_seed raw) /\
  ((exists req, validate raw = Ok req) <-> well_formed raw) /\
  (forall e, validate raw = Raise e -> exists msg, e = ValidationError msg).
Proof.
  unfold validate, well_formed.
  destruct (validate_message_list (raw_messages raw)) as [ms|e0] eqn:Em; simpl.
  2:{ destruct (validate_message_list_raise _ _ Em) as [Hm Hn].
      split; [discriminate|]. split.
      - split; [intros [req E]; discriminate|]. intros (_ & Hall & _). contradiction.
      - intros e E. now injection E as <-. }
  destruct (validate_message_list_ok _ _ Em) as [Hroles Hcontents].
  assert (Hall : Forall (fun m => In (raw_role m) ["system"; "user"; "assistant"])
                        (raw_messages raw)).
  { clear -Hroles. revert ms Hroles.
    induction (raw_messages raw) as [|m l IH]; intros ms Hroles; [constructor|].
    destruct ms as [|m' ms]; [discriminate|]. simpl in Hroles.
    injection Hroles as Hr Hrest. constructor; [|now apply (IH ms)].
    rewrite <- Hr. destruct (role m'); simpl; auto. }
  destruct ms as [|m0 ms]; simpl.
  { split; [discriminate|]. split.
    - split; [intros [req E]; discriminate|]. intros (Hne & _).
      destruct (raw_messages raw); [congruence|discriminate].
    - intros e E. injection E as <-. now eexists. }
  assert (Hne : raw_messages raw <> []).
  { intros E. rewrite E in Hcontents. discriminate. }
  pose proof (in_bounds_spec 0 2 (raw_temperature raw)) as Ht.
  pose proof (in_bounds_spec 0 1 (raw_top_p raw)) as Hp.
  destruct (in_bounds 0 2 (raw_temperature raw)); simpl.
  2:{ split; [discriminate|]. split.
      - split; [intros [req E]; discriminate|]. intros (_ & _ & H1 & _).
        apply Ht in H1. discriminate.
      - intros e E. injection E as <-. now eexists. }
  destruct (in_bounds 0 1 (raw_top_p raw)); simpl.
  2:{ split; [discriminate|]. split.
      - split; [intros [req E]; discriminate|]. intros (_ & _ & _ & H1 & _).
        apply Hp in H1. discriminate.
      - intros e E. injection E as <-. now eexists. }
  destruct (raw_seed raw) as [s|] eqn:Es.
  - destruct (s <? 0)%Z eqn:E0.
    + apply Z.ltb_lt in E0. split; [discriminate|]. split.
      * split; [intros [req E]; discriminate|]. intros (_ & _ & _ & _ & H1).
        specialize (H1 s eq_refl). lia.
      * intros e E. injection E as <-. now eexists.
    + apply Z.ltb_ge in E0. split; [|split; [|discriminate]].
      * intros req E. injection E as <-. simpl.
        split; [discriminate|]. repeat split; auto.
      * split; [intros _|intros _; now eexists].
        split; [exact Hne|]. split; [exact Hall|].
        split; [now apply Ht|]. split; [now apply Hp|].
        intros s' E. now injection E as <-.
  - split; [|split; [|discriminate]].
    + intros req E. injection E as <-. simpl.
      split; [discriminate|]. repeat split; auto.
    + split; [intros _|intros _; now eexists].
      split; [exact Hne|]. split; [exact Hall|].
      split; [now apply Ht|]. split; [now apply Hp|]. discriminate.
Qed.

End SchemasFacts.

(** ** What the events and the collector say about a turn *)

Section ProtocolFacts.
Import Schemas Main.
Context `{Builtins}.

Lemma validate_raise (raw : RawChatRequest) (e : exn) :
  validate raw = Raise e -> exists msg, e = ValidationError msg.
Proof.
  unfold validate.
  destruct (validate_message_list (raw_messages raw)) as [ms|e0] eqn:Em; simpl.
  2:{ intros E. injection E as <-. now destruct (validate_message_list_raise _ _ Em). }
  destruct ms as [|m0 ms]; simpl; [intros E; injection E as <-; now eexists|].
  destruct (in_bounds 0 2 (raw_temperature raw)); simpl;
    [|intros E; injection E as <-; now eexists].
  destruct (in_bounds 0 1 (raw_top_p raw)); simpl;
    [|intros E; injection E as <-; now eexists].
  destruct (match raw_seed raw with Some s => (s <? 0)%Z | None => false end);
    [intros E; injection E as <-; now eexists|discriminate].
Qed.

(** What the state machine collects is what it emitted, and no emitted
    text is empty. *)
Lemma translate_collected (chunks : list dict) (failure : option (string * Z))
    (collected : list string) :
  let r := translate chunks failure collected in
  Forall (fun t => t <> ""%string) r.1 /\
  match r.2 with
  | Completed c u =>
      c = collected ++ r.1 /\
      total_tokens u = (prompt_tokens u + completion_tokens u)%Z
  | Truncated c => c = collected ++ r.1
  | Failed _ | Crashed _ => True
  end.
Proof.
  revert collected. induction chunks as [|chunk rest IH]; intros collected; cbn [translate].
  - cbn [fst snd]. split; [constructor|]. destruct failure as [[m s]|]; [exact I|].
    now rewrite app_nil_r.
  - destruct (truthy (get chunk "error"%string)); [cbn [fst snd]; split; [constructor|exact I]|].
    assert (He : Forall (fun t => t <> ""%string)
                   (if Deps.nonempty (_token_from_chunk chunk)
                    then [_token_from_chunk chunk] else [])).
    { destruct (Deps.nonempty (_token_from_chunk chunk)) eqn:E; [|constructor].
      constructor; [|constructor]. now apply nonempty_true. }
    destruct (truthy (get chunk "done"%string)).
    + cbn [fst snd]. split; [exact He|].
      destruct (_usage_from_chunk chunk) as [u|e]; [|exact I]. now split.
    + cbv zeta. cbn [fst snd].
      specialize (IH (collected ++ (if Deps.nonempty (_token_from_chunk chunk)
                                    then [_token_from_chunk chunk] else []))).
      cbv zeta in IH. destruct IH as [IH1 IH2].
      split; [apply Forall_app; now split|].
      destruct (translate rest failure _) as [toks out]. cbn [fst snd] in *.
      destruct out as [c u|c| |]; try exact I; rewrite app_assoc; exact IH2.
Qed.

Lemma events_of_app (a b : list action) :
  events_of (a ++ b) = events_of a ++ events_of b.
Proof.
  induction a as [|x a IH]; [reflexivity|].
  destruct x; simpl; now rewrite ?IH.
Qed.

Lemma new_events_sse (model_name : string) (msgs : list ChatMessage)
    (options : Options) (env : TurnEnv) (w : World) :
  let r := translate (chunks (backend env)) (failure (backend env)) [] in
  new_events (_sse_chat_generator model_name msgs options env) w
  = map Token r.1 ++ sse_terminal (elapsed_ms (t_start env) (t_end env)) r.2.
Proof.
  unfold new_events. rewrite sse_generator_run. cbv zeta. cbn [snd trace].
  rewrite drop_app_length. cbn [events_of]. apply events_of_yields.
Qed.

Lemma new_events_ws (settings : Settings) (chat_request : ChatRequest)
    (env : TurnEnv) (w : World) :
  connected w ->
  let r := translate (chunks (backend env)) (failure (backend env)) [] in
  new_events (_handle_websocket_chat settings chat_request env) w
  = map Token r.1 ++ [ws_terminal (elapsed_ms (t_start env) (t_end env)) r.2].
Proof.
  intros Hc. unfold new_events. rewrite ws_turn_run by exact Hc. cbv zeta. cbn [snd trace].
  rewrite drop_app_length. cbn [events_of]. apply events_of_sends.
Qed.

(** X16.  [Done] carries the whole reply.  The events of a turn are
    [Token] events with non-empty texts followed by its terminal event; in
    a [Done] the content is the concatenation of the texts of the [Token]
    events that came before it, in order, [total_tokens] is the sum of the
    two counts, and the latency is the one measured between the two clock
    readings.  For the SSE generator the [Done] block is there exactly when
    the generator ends without raising. *)
Theorem done_carries_whole_reply (settings : Settings) (chat_request : ChatRequest)
    (model_name : string) (msgs : list ChatMessage) (options : Options)
    (env : TurnEnv) (w : World) :
  let lat := elapsed_ms (t_start env) (t_end env) in
  let whole (tokens : list string) (e : ChatEvent) :=
    match e with
    | Done content usage latency_ms =>
        content = String.concat "" tokens /\
        total_tokens usage = (prompt_tokens usage + completion_tokens usage)%Z /\
        latency_ms = lat
    | Error _ details => details = None
    | Token _ => False
    end in
  (exists tokens, Forall (fun t => t <> ""%string) tokens /\
     ((exists e, (_sse_chat_generator model_name msgs options env w).1 = Raise e) /\
      new_events (_sse_chat_generator model_name msgs options env) w = map Token tokens
      \/
      (_sse_chat_generator model_name msgs options env w).1 = Ok tt /\
      exists content usage latency_ms,
        new_events (_sse_chat_generator model_name msgs options env) w
        = map Token tokens ++ [Done content usage latency_ms] /\
        whole tokens (Done content usage latency_ms))) /\
  (connected w ->
   exists tokens last, Forall (fun t => t <> ""%string) tokens /\
     new_events (_handle_websocket_chat settings chat_request env) w
     = map Token tokens ++ [last] /\
     whole tokens last).
Proof.
  intros lat whole.
  pose proof (translate_collected (chunks (backend env)) (failure (backend env)) []) as Hcol.
  cbv zeta in Hcol. destruct Hcol as [Hne Hout].
  split.
  - rewrite new_events_sse. rewrite sse_generator_run. cbv zeta. cbn [fst].
    destruct (translate (chunks (backend env)) (failure (backend env)) []) as [toks out].
    cbn [fst snd] in *. exists toks. split; [exact Hne|].
    destruct out as [c u|c|message|e]; cbn [sse_result sse_terminal].
    + right. split; [reflexivity|]. destruct Hout as [-> Ht].
      do 3 eexists. split; [reflexivity|]. now repeat split.
    + right. split; [reflexivity|]. subst c.
      do 3 eexists. split; [reflexivity|]. now repeat split.
    + left. split; [now eexists|now rewrite app_nil_r].
    + left. split; [|now rewrite app_nil_r]. destruct e; now eexists.
  - intros Hc. rewrite new_events_ws by exact Hc. cbv zeta.
    destruct (translate (chunks (backend env)) (failure (backend env)) []) as [toks out].
    cbn [fst snd] in *. exists toks. eexists. split; [exact Hne|]. split; [reflexivity|].
    destruct out as [c u|c|message|e]; cbn [ws_terminal].
    + destruct Hout as [-> Ht]. now repeat split.
    + subst c. now repeat split.
    + reflexivity.
    + destruct e; reflexivity.
Qed.


(** *** A connection *)

Lemma ws_turns_run (settings : Settings) (inbound : list (Inbound * TurnEnv)) (w : World) :
  connected w ->
  exists w' ext,
    ws_turns settings inbound w = (Ok tt, w') /\
    connected w' /\ limiter w' = limiter w /\
    trace w' = trace w ++ ext /\
    terminal_count (events_of ext) = length (served inbound) /\
    length (filter (fun a => is_backend_call a = true) ext)
    = length (filter (fun t => accepted t = true) (served inbound)).
Proof.
  revert w. induction inbound as [|[msg env] rest IH]; intros w Hc.
  - exists w, []. cbn. rewrite app_nil_r. now repeat split; try apply Hc.
  - destruct msg as [|why|data].
    + exists w, []. cbn. rewrite app_nil_r. now repeat split; try apply Hc.
    + cbn [ws_turns]. unfold bindM.
      rewrite send_ws_error_connected by exact Hc.
      set (w1 := add_trace w _).
      destruct (IH w1) as (w' & ext & Hrun & Hc' & Hl & Ht & Hn & Hb);
        [now apply connected_add_trace|].
      exists w', (Send (Error ("Invalid message: " ++ why) None) :: ext).
      split; [exact Hrun|]. split; [exact Hc'|]. split; [exact Hl|].
      split; [rewrite Ht; subst w1; cbn; now rewrite <- app_assoc|].
      split.
      * cbn [events_of served length].
        change (Error ("Invalid message: " ++ why) None :: events_of ext)
          with ([Error ("Invalid message: " ++ why) None] ++ events_of ext).
        rewrite terminal_count_app, Hn. reflexivity.
      * cbn [served]. rewrite filter_cons_False by (cbn; discriminate).
        rewrite filter_cons_False by (cbn; discriminate). exact Hb.
    + cbn [ws_turns].
      destruct (validate (merged_payload data)) as [req|e] eqn:Ev.
      * unfold bindM. rewrite ws_turn_run by exact Hc. cbv zeta.
        set (r := translate (chunks (backend env)) (failure (backend env)) []).
        set (w1 := {| limiter := limiter w; metrics := _; websocket := websocket w;
                      trace := _ |}).
        destruct (IH w1) as (w' & ext & Hrun & Hc' & Hl & Ht & Hn & Hb); [exact Hc|].
        exists w'. eexists. split; [exact Hrun|]. split; [exact Hc'|]. split; [exact Hl|].
        split; [rewrite Ht; subst w1; cbn [trace]; rewrite <- app_assoc; reflexivity|].
        split.
        -- rewrite events_of_app. cbn [events_of]. rewrite events_of_sends.
           rewrite terminal_count_app, Hn.
           rewrite terminal_count_closed by apply ws_terminal_is_terminal.
           reflexivity.
        -- cbn [served]. rewrite filter_app, length_app, Hb.
           rewrite (filter_cons_True _ (Message data, env))
             by (unfold accepted; cbn [fst]; now rewrite Ev).
           rewrite filter_cons_True by reflexivity.
           assert (Hs : forall l : list ChatEvent,
                     filter (fun a => is_backend_call a = true) (map Send l) = []).
           { induction l as [|x l IHl]; [reflexivity|]. cbn [map].
             now rewrite filter_cons_False by (cbn; discriminate). }
           rewrite Hs. reflexivity.
      * destruct (validate_raise _ _ Ev) as [msg ->].
        unfold bindM. rewrite send_ws_error_connected by exact Hc.
        set (w1 := add_trace w _).
        destruct (IH w1) as (w' & ext & Hrun & Hc' & Hl & Ht & Hn & Hb);
          [now apply connected_add_trace|].
        exists w', (Send (Error "Invalid payload" (Some msg)) :: ext).
        split; [exact Hrun|]. split; [exact Hc'|]. split; [exact Hl|].
        split; [rewrite Ht; subst w1; cbn; now rewrite <- app_assoc|].
        split.
        -- cbn [events_of served length].
           change (Error "Invalid payload" (Some msg) :: events_of ext)
             with ([Error "Invalid payload" (Some msg)] ++ events_of ext).
           rewrite terminal_count_app, Hn. reflexivity.
        -- cbn [served]. rewrite filter_cons_False by (cbn; discriminate).
           rewrite filter_cons_False
             by (unfold accepted; cbn [fst]; rewrite Ev; discriminate).
           exact Hb.
Qed.


(** *** A request *)

Lemma exception_response_not_answered (e : exn) : answered (exception_response e) = false.
Proof. now destruct e. Qed.

Lemma chat_endpoint_counted (settings : Settings) (payload : ChatRequest)
    (env : RequestEnv) (w : World) :
  let r := chat_endpoint settings payload env w in
  match r.1 with
  | Ok response =>
      if answered response
      then Metrics._requests_total (metrics r.2) = (Metrics._requests_total (metrics w) + 1)%Z
      else metrics r.2 = metrics w
  | Raise _ => metrics r.2 = metrics w
  end.
Proof.
  unfold chat_endpoint. cbv zeta. destruct (stream payload).
  - rewrite sse_generator_run. cbv zeta.
    destruct (translate _ _ _) as [toks out]. cbn [fst snd].
    destruct out as [c u|c|message|e]; cbn [sse_result answered metrics metrics_after fst snd];
      try reflexivity.
    destruct e; reflexivity.
  - unfold bindM, emit, lift, ret, raise, record_sample. cbn [fst snd].
    destruct (chat_reply env) as [response|e]; [|destruct e; reflexivity].
    destruct (py_int (py_or (get response "prompt_eval_count") (VInt 0))) as [p|e];
      [|reflexivity].
    destruct (py_int (py_or (get response "eval_count") (VInt 0))) as [c|e];
      [|reflexivity].
    reflexivity.
Qed.


(** X20.  A limiter that cannot be built fails closed.  With a refill rate
    or a burst that is not positive, [get_rate_limiter] raises at every
    call and caches nothing: a request that passes the key check gets the
    500 response, a handshake is refused before the socket is accepted,
    and neither reaches the backend or changes the process, so that every
    later request meets the same. *)
Theorem misconfigured_limiter_fails_closed (settings : Settings)
    (request handshake : Deps.Peer) (body : RawChatRequest) (env : RequestEnv)
    (now : Q) (inbound : list (Inbound * TurnEnv)) (w : World) :
  (rate_limit_rps settings <= 0)%Q \/ (rate_limit_burst settings <= 0)%Z ->
  limiter w = None ->
  Deps.verify_api_key settings request = Ok tt ->
  Deps.verify_api_key_ws settings handshake = Ok tt ->
  post_api_chat settings request body env w
  = (Ok (ErrorResponse 500 "Internal Server Error"), w) /\
  exists msg, websocket_chat settings handshake now inbound w = (Raise (ValueError msg), w).
Proof.
  intros Hbad Hl Hk Hkw.
  assert (Hinit : exists msg,
            RateLimiter.__init__ (rate_limit_rps settings) (rate_limit_burst settings)
            = Raise (ValueError msg)).
  { unfold RateLimiter.__init__.
    destruct (Qle_bool (rate_limit_rps settings) 0) eqn:E1; [now eexists|].
    destruct (rate_limit_burst settings <=? 0)%Z eqn:E2; [now eexists|].
    exfalso. destruct Hbad as [Hr|Hb].
    - apply Qle_bool_iff in Hr. congruence.
    - apply Z.leb_le in Hb. congruence. }
  destruct Hinit as [msg Hinit].
  assert (Hget : Deps.get_rate_limiter settings w = (Raise (ValueError msg), w)).
  { unfold Deps.get_rate_limiter. now rewrite Hl, Hinit. }
  split.
  - rewrite post_api_chat_unfold, Hk.
    pose proof (enforce_rate_limit_run settings request (admit_clock env) w) as Hrun.
    cbv zeta in Hrun. rewrite Hget in Hrun. cbn [fst] in Hrun. rewrite Hrun. reflexivity.
  - exists msg. rewrite websocket_chat_unfold, Hkw.
    pose proof (enforce_rate_limit_ws_run settings handshake now w) as Hrun.
    cbv zeta in Hrun. rewrite Hget in Hrun. cbn [fst] in Hrun. rewrite Hrun. reflexivity.
Qed.

(** *** The text of a reply *)

Lemma truthy_get_contains (d : dict) (key : string) :
  truthy (get d key) = true -> contains d key = true.
Proof.
  induction d as [|[k v] d IH]; simpl; [discriminate|].
  destruct (String.eqb k key); [reflexivity|exact IH].
Qed.

(** X21.  Where the text of a reply is read.  The streaming handlers
    ([_token_from_chunk]) and the plain endpoint ([_extract_content]) read
    the same text from a backend object that carries it under one key
    only, ["response"] or ["content"] of ["message"]; when both are there
    they differ: a chunk is read from ["response"], a complete response
    from the message. *)
Theorem reply_text_sources (d : dict) :
  let response := get d "response" in
  let content := match get d "message" with
                 | VDict m => get m "content"
                 | _ => VNone
                 end in
  (truthy response = false \/ truthy content = false ->
     _token_from_chunk d = _extract_content d) /\
  (truthy response = false -> truthy content = false ->
     _token_from_chunk d = ""%string) /\
  (truthy response = true -> truthy content = true ->
     _token_from_chunk d = py_str response /\ _extract_content d = py_str content).
Proof.
  intros response content. subst response content.
  unfold _token_from_chunk, _extract_content, py_or.
  destruct (truthy (get d "response")) eqn:Er.
  - rewrite (truthy_get_contains _ _ Er). cbn [andb].
    split; [|split; [discriminate|]].
    + intros [E|E]; [discriminate|].
      destruct (get d "message") as [| | | | | |m]; try reflexivity.
      now rewrite E.
    + intros _ E. split; [reflexivity|].
      destruct (get d "message") as [| | | | | |m]; try discriminate.
      now rewrite E.
  - rewrite andb_false_r.
    split; [|split; [|discriminate]].
    + intros _. destruct (get d "message") as [|b|n|x|s|l|m] eqn:Em; cbn [truthy];
        try reflexivity.
      * now destruct b.
      * now destruct (negb (n =? 0)%Z).
      * now destruct (negb (Qeq_bool x 0)).
      * now destruct (negb (String.eqb s "")).
      * now destruct l.
      * destruct m as [|kv m]; [reflexivity|]. reflexivity.
    + intros _ E. destruct (get d "message") as [|b|n|x|s|l|m] eqn:Em; cbn [truthy];
        try reflexivity.
      * now destruct b.
      * now destruct (negb (n =? 0)%Z).
      * now destruct (negb (Qeq_bool x 0)).
      * now destruct (negb (String.eqb s "")).
      * now destruct l.
      * destruct m as [|kv m]; [reflexivity|]. now rewrite E.
Qed.

(** *** A connection from its handshake *)


End ProtocolFacts.

(** ** The request sent to the backend *)

Section PayloadFacts.
Import Schemas Main OllamaClient.

Lemma filter_not_none (items : dict) :
  let filtered := filter (fun kv => negb (is_none kv.2) = true) items in
  Forall (fun kv => kv.2 <> VNone) filtered /\
  (forall k v, In (k, v) filtered <-> v <> VNone /\ In (k, v) items) /\
  (filtered = [] -> Forall (fun kv => kv.2 = VNone) items).
Proof.
  cbv zeta. induction items as [|[k0 v0] items (IH1 & IH2 & IH3)].
  - split; [constructor|]. split; [|constructor]. intros k v. simpl. tauto.
  - destruct (is_none v0) eqn:E.
    + rewrite filter_cons_False by (cbn [snd]; rewrite E; discriminate).
      assert (v0 = VNone) as -> by (destruct v0; try discriminate; reflexivity).
      split; [exact IH1|]. split.
      * intros k v. rewrite IH2. simpl. split; [tauto|].
        intros [Hv [Heq|Hin]]; [congruence|tauto].
      * intros Hf. constructor; [reflexivity|now apply IH3].
    + rewrite filter_cons_True by (cbn [snd]; now rewrite E).
      assert (Hv0 : v0 <> VNone) by (intros ->; discriminate).
      split; [constructor; [exact Hv0|exact IH1]|]. split; [|discriminate].
      intros k v. simpl. rewrite IH2. split.
      * intros [Heq|[Hv Hin]]; [injection Heq as <- <-; tauto|tauto].
      * tauto.
Qed.

(** X22.  What [_build_payload] sends.  The payload always carries the
    model, the messages and the stream flag it was given.  It carries
    ["options"] exactly when some option has a value other than [None], and
    then with exactly those options, unchanged: no [null] and no empty
    options object is ever sent. *)
Theorem payload_options_never_null (model : string) (messages : list value)
    (stream : bool) (options : option dict) :
  let payload := _build_payload model messages stream options in
  let given := match options with Some o => o | None => [] end in
  get payload "model" = VStr model /\
  get payload "messages" = VList messages /\
  get payload "stream" = VBool stream /\
  ((contains payload "options" = false /\ get payload "options" = VNone /\
    Forall (fun kv => kv.2 = VNone) given)
   \/
   (exists sent, get payload "options" = VDict sent /\ sent <> [] /\
      Forall (fun kv => kv.2 <> VNone) sent /\
      forall k v, In (k, v) sent <-> v <> VNone /\ In (k, v) given)).
Proof.
  intros payload given. subst payload. unfold _build_payload. cbv zeta.
  assert (Hitems : match options with
                   | Some o => if truthy (VDict o) then o else []
                   | None => []
                   end = given).
  { subst given. destruct options as [[|kv o]|]; reflexivity. }
  rewrite Hitems.
  destruct (filter_not_none given) as (H1 & H2 & H3). cbv zeta in H1, H2, H3.
  destruct (filter (fun kv => negb (is_none kv.2) = true) given) as [|kv sent] eqn:Ef; cbn [truthy].
  - repeat split; try reflexivity. left. repeat split; try reflexivity. now apply H3.
  - repeat split; try reflexivity. right. exists (kv :: sent).
    split; [reflexivity|]. split; [discriminate|]. split; [exact H1|exact H2].
Qed.

(** X23.  The generation parameters of a request reach the backend as
    given.  In the payload built for a request, ["options"] holds the
    parameters of the request that are set, each with its value, and
    nothing else; a request with no parameter set sends no ["options"], so
    that the defaults of the backend apply. *)
Theorem request_parameters_reach_backend (req : ChatRequest) (model_name : string)
    (streaming : bool) :
  let payload := _build_payload model_name (map model_dump (messages req)) streaming
                   (Some (options_dict (_build_options req))) in
  let sent := match get payload "options" with VDict o => o | _ => [] end in
  (contains payload "options" = true <->
     temperature req <> None \/ top_p req <> None \/ seed req <> None) /\
  get sent "temperature" = match temperature req with Some t => VFloat t | None => VNone end /\
  get sent "top_p" = match top_p req with Some p => VFloat p | None => VNone end /\
  get sent "seed" = match seed req with Some s => VInt s | None => VNone end /\
  length sent = (length (option_list (temperature req)) +
                 length (option_list (top_p req)) +
                 length (option_list (seed req)))%nat.
Proof.
  intros payload sent. subst sent payload.
  unfold _build_payload, options_dict, _build_options. cbv zeta.
  cbn [opt_temperature opt_top_p opt_seed].
  destruct (temperature req) as [t|], (top_p req) as [p|], (seed req) as [s|]; cbn;
    (split;
     [first [ split; [discriminate|intros [E|[E|E]]; congruence]
            | split; [intros _; first [ left; discriminate
                                      | right; left; discriminate
                                      | right; right; discriminate ]
                     |intros _; reflexivity] ]
     |repeat split]).
Qed.

End PayloadFacts.

(** ** Examples of turns, connections and requests *)

Section ProtocolExamples.
Import Schemas Main.

#[local] Existing Instance example_builtins.


(** A process configured with a refill rate of zero. *)
Lemma misconfigured_limiter_fails_closed_witness :
  let settings := {| default_model := "llama3"; api_key := ""; api_key_optional := true;
                     rate_limit_rps := 0; rate_limit_burst := 6 |} in
  post_api_chat settings proxied_client (hi_body false) (example_request_env 0) initial_world
  = (Ok (ErrorResponse 500 "Internal Server Error"), initial_world) /\
  exists msg, websocket_chat settings proxied_client 0 [(Message hi_turn, example_turn [])]
                initial_world
              = (Raise (ValueError msg), initial_world).
Proof.
  apply (misconfigured_limiter_fails_closed
           {| default_model := "llama3"; api_key := ""; api_key_optional := true;
              rate_limit_rps := 0; rate_limit_burst := 6 |}
           proxied_client proxied_client (hi_body false) (example_request_env 0) 0
           [(Message hi_turn, example_turn [])] initial_world).
  - left. vm_compute. discriminate.
  - reflexivity.
  - reflexivity.
  - reflexivity.
Defined.


End ProtocolExamples.
